(** * OverTune music bot: the session logic of [ymain_cache.py]

    A shallow embedding of the command handlers, the playback advance step
    and the inactivity watchdog of the bot, with the module-level
    dictionaries as finite maps keyed by guild id.  Calls into discord.py
    and yt-dlp are visible as [effect]s; their outcomes (an exception or a
    value) are inputs of the handlers.

    A handler is one step from state to state: what other tasks do while it
    awaits is not part of the model.  [ctx.send] is an effect that returns;
    where the source wraps it in [try] a failing send changes nothing.  The
    watchdog is the exception: it is a loop over its wake-ups, each of which
    sees the dictionaries as the other handlers left them. *)

From Stdlib Require Import ZArith List String Floats Lia.
From stdpp Require Import base option list gmap sets strings.
From stdpp Require Import pretty.

Local Open Scope Z_scope.

(** ** Data *)

(** The dict built by [fetch_song]; [requester_id] is added by
    [preload_song].  [info.get(k)] is [None] for a missing key. *)
Record song := Song {
  title : option string;
  webpage_url : option string;
  audio_url : option string;
  duration : option Z;
  thumbnail : option string;
  channel : option string;
  requester_id : option Z
}.

#[global] Instance song_eq_dec : EqDecision song.
Proof. solve_decision. Defined.

(** A member of a voice channel: [m.id] and [m.bot]. *)
Record member := Member {
  m_id : Z;
  m_bot : bool
}.

(** [ctx.author]: [voice_channel] is [None] when [member.voice] or
    [member.voice.channel] is falsy, otherwise the channel's members. *)
Record author_info := Author {
  a_id : Z;
  roles : list string;
  voice_channel : option (list member)
}.

Record context := Context {
  guild : Z;
  author : author_info
}.

(** The discord.py voice client of a guild, as far as the bot reads or
    writes it: [channel.members], [is_playing()], [is_paused()], the
    attribute [current_song] the bot attaches, and the volume of the
    [PCMVolumeTransformer] bound as [source] (if any). *)
Record voice_client := VoiceClient {
  vc_members : list member;
  is_playing : bool;
  is_paused : bool;
  current_song : option song;
  source : option float
}.

(** The module-level dictionaries.  [voice_clients] stands for
    [guild.voice_client] (absent = [None]); [next_task] numbers the tasks
    created with [bot.loop.create_task]. *)
Record bot_state := BotState {
  guild_queues : gmap Z (list song);
  guild_playing : gmap Z bool;
  skip_votes : gmap Z (gset Z);
  disconnect_tasks : gmap Z nat;
  audio_cache : gmap (option string) (option string);
  guild_volumes : gmap Z float;
  voice_clients : gmap Z voice_client;
  next_task : nat
}.

Definition set_guild_queues (f : gmap Z (list song) → gmap Z (list song)) (st : bot_state) : bot_state :=
  BotState (f (guild_queues st)) (guild_playing st) (skip_votes st) (disconnect_tasks st)
           (audio_cache st) (guild_volumes st) (voice_clients st) (next_task st).

Definition set_guild_playing (f : gmap Z bool → gmap Z bool) (st : bot_state) : bot_state :=
  BotState (guild_queues st) (f (guild_playing st)) (skip_votes st) (disconnect_tasks st)
           (audio_cache st) (guild_volumes st) (voice_clients st) (next_task st).

Definition set_skip_votes (f : gmap Z (gset Z) → gmap Z (gset Z)) (st : bot_state) : bot_state :=
  BotState (guild_queues st) (guild_playing st) (f (skip_votes st)) (disconnect_tasks st)
           (audio_cache st) (guild_volumes st) (voice_clients st) (next_task st).

Definition set_disconnect_tasks (f : gmap Z nat → gmap Z nat) (st : bot_state) : bot_state :=
  BotState (guild_queues st) (guild_playing st) (skip_votes st) (f (disconnect_tasks st))
           (audio_cache st) (guild_volumes st) (voice_clients st) (next_task st).

Definition set_audio_cache
    (f : gmap (option string) (option string) → gmap (option string) (option string))
    (st : bot_state) : bot_state :=
  BotState (guild_queues st) (guild_playing st) (skip_votes st) (disconnect_tasks st)
           (f (audio_cache st)) (guild_volumes st) (voice_clients st) (next_task st).

Definition set_guild_volumes (f : gmap Z float → gmap Z float) (st : bot_state) : bot_state :=
  BotState (guild_queues st) (guild_playing st) (skip_votes st) (disconnect_tasks st)
           (audio_cache st) (f (guild_volumes st)) (voice_clients st) (next_task st).

Definition set_voice_clients (f : gmap Z voice_client → gmap Z voice_client) (st : bot_state) : bot_state :=
  BotState (guild_queues st) (guild_playing st) (skip_votes st) (disconnect_tasks st)
           (audio_cache st) (guild_volumes st) (f (voice_clients st)) (next_task st).

Definition set_next_task (n : nat) (st : bot_state) : bot_state :=
  BotState (guild_queues st) (guild_playing st) (skip_votes st) (disconnect_tasks st)
           (audio_cache st) (guild_volumes st) (voice_clients st) n.

(** [d.setdefault(k, v)]. *)
Definition setdefault `{Countable K} {V} (k : K) (v : V) (d : gmap K V) : gmap K V :=
  match d !! k with
  | Some _ => d
  | None => <[k := v]> d
  end.

(** [guild_queues.get(guild_id, deque())]. *)
Definition queue_of (st : bot_state) (guild_id : Z) : list song :=
  default [] (guild_queues st !! guild_id).

(** [skip_votes[guild_id]], read after the [setdefault]. *)
Definition votes_of (st : bot_state) (guild_id : Z) : gset Z :=
  default ∅ (skip_votes st !! guild_id).

(** ** Exceptions, messages and effects *)

Inductive exn :=
| RuntimeError (msg : string)
| IndexError
| TypeError
| LibraryError (msg : string).

(** The texts passed to [ctx.send], one constructor per call site. *)
Inductive message :=
| MsgIdleLeft
| MsgNowPlaying (s : song)
| MsgConnectFailed (e : exn)
| MsgMustBeInVoiceToPlay
| MsgLoading (query : string)
| MsgErrorLoading (e : exn)
| MsgAddedToQueue (s : song)
| MsgNothingCurrentlyPlaying
| MsgMustBeInVoiceToSkip
| MsgRequesterOverride
| MsgOGOverride
| MsgSkipPassed (current_votes members : nat)
| MsgSkipVoteRegistered (current_votes votes_needed : nat)
| MsgCreatorOnly
| MsgStopped
| MsgNotConnected
| MsgQueueEmpty
| MsgInvalidQueueNumber (total_len : Z)
| MsgRemoveNotAllowed
| MsgRemoved (t : option string)
| MsgCouldNotFind
| MsgNothingPlaying
| MsgVolumeRange
| MsgVolumeSet (vol : Z).

Inductive effect :=
| Send (m : message)
| VoiceConnect (guild_id : Z)
| VoiceDisconnect (guild_id : Z)
| VoiceStop (guild_id : Z)
| VoicePlay (guild_id : Z) (locator : option string) (gain : float)
| CreatePlayNext (guild_id : Z)
| CreateAutoDisconnect (guild_id : Z) (task : nat)
| CancelTask (task : nat)
| Raise (e : exn).

(** ** discord.py behaviour the handlers rely on *)

(** [voice_client.stop()]: the player is dropped, so [is_playing()] and
    [is_paused()] are false and [source] is [None]; [current_song] is the
    bot's own attribute and stays. *)
Definition vc_stop (vc : voice_client) : voice_client :=
  VoiceClient (vc_members vc) false false (current_song vc) None.

(** [voice_client.play(source, after=...)] when it does not raise. *)
Definition vc_play (gain : float) (vc : voice_client) : voice_client :=
  VoiceClient (vc_members vc) true false (current_song vc) (Some gain).

Definition vc_set_current_song (s : song) (vc : voice_client) : voice_client :=
  VoiceClient (vc_members vc) (is_playing vc) (is_paused vc) (Some s) (source vc).

Definition vc_set_source_volume (gain : float) (vc : voice_client) : voice_client :=
  VoiceClient (vc_members vc) (is_playing vc) (is_paused vc) (current_song vc)
              (match source vc with Some _ => Some gain | None => None end).

(** [[m for m in members if not m.bot]]. *)
Definition non_bots (members : list member) : list member :=
  List.filter (λ m, negb (m_bot m)) members.

Definition OG_ROLE_NAME : string := "OG".

(** [discord.utils.get(member.roles, name=OG_ROLE_NAME)] is truthy. *)
Definition og_role (a : author_info) : bool :=
  bool_decide (OG_ROLE_NAME ∈ roles a).

(** ** skip *)

Definition votes_needed (vc_members : list member) : nat :=
  Nat.max 1 (length vc_members / 2).

Definition skip (ctx : context) (st : bot_state) : bot_state * list effect :=
  let guild_id := guild ctx in
  let member := author ctx in
  match voice_clients st !! guild_id with
  | None => (st, [Send MsgNothingCurrentlyPlaying])
  | Some voice_client =>
    if negb (is_playing voice_client) then (st, [Send MsgNothingCurrentlyPlaying])
    else match voice_channel member with
    | None => (st, [Send MsgMustBeInVoiceToSkip])
    | Some channel_members =>
      let st := set_skip_votes (setdefault guild_id ∅) st in
      let stop_and_clear (st : bot_state) :=
        set_skip_votes <[guild_id := ∅]>
          (set_voice_clients <[guild_id := vc_stop voice_client]> st) in
      if match current_song voice_client with
         | Some current => bool_decide (Some (a_id member) = requester_id current)
         | None => false
         end
      then (stop_and_clear st, [VoiceStop guild_id; Send MsgRequesterOverride])
      else if og_role member
      then (stop_and_clear st, [VoiceStop guild_id; Send MsgOGOverride])
      else
        let st := set_skip_votes <[guild_id := {[a_id member]} ∪ votes_of st guild_id]> st in
        let vc_members := non_bots channel_members in
        let needed := votes_needed vc_members in
        let current_votes := size (votes_of st guild_id) in
        if (needed <=? current_votes)%nat
        then (stop_and_clear st,
              [VoiceStop guild_id; Send (MsgSkipPassed current_votes (length vc_members))])
        else (st, [Send (MsgSkipVoteRegistered current_votes needed)])
    end
  end.

(** ** Playback advance *)

(** [audio_cache.get(song["webpage_url"], song["audio_url"])]. *)
Definition cached_locator (st : bot_state) (s : song) : option string :=
  default (audio_url s) (audio_cache st !! webpage_url s).

(** [play_next].  The now-playing embed is one [Send]; a failing send is
    swallowed by the source and changes nothing.  The source object is built
    outside the [try]: [discord.FFmpegPCMAudio(None, ...)] raises [TypeError]
    and nothing catches it, so the handler ends there; with a locator the
    source is taken to be built.  [voice_client.play] raises when the client
    is already playing; [play_raises] tells whether it raises for another
    reason. *)
Definition play_next (play_raises : bool) (ctx : context) (st : bot_state)
    : bot_state * list effect :=
  let guild_id := guild ctx in
  match queue_of st guild_id with
  | [] => (set_guild_playing <[guild_id := false]> st, [])
  | s :: rest =>
    let st := set_guild_queues <[guild_id := rest]> st in
    match voice_clients st !! guild_id with
    | None => (set_guild_playing <[guild_id := false]> st, [])
    | Some voice_client =>
      let st := set_guild_playing <[guild_id := true]> st in
      let voice_client := vc_set_current_song s voice_client in
      let st := set_voice_clients <[guild_id := voice_client]> st in
      match cached_locator st s with
      | None => (st, [Send (MsgNowPlaying s); Raise TypeError])
      | Some audio_url =>
        let volume := default 1%float (guild_volumes st !! guild_id) in
        if play_raises || is_playing voice_client
        then (st, [Send (MsgNowPlaying s); CreatePlayNext guild_id])
        else
          let st := set_voice_clients <[guild_id := vc_play volume voice_client]> st in
          let cancel := match disconnect_tasks st !! guild_id with
                        | Some t => [CancelTask t]
                        | None => []
                        end in
          let task := next_task st in
          let st := set_next_task (S task) (set_disconnect_tasks <[guild_id := task]> st) in
          (st, [Send (MsgNowPlaying s); VoicePlay guild_id (Some audio_url) volume]
                 ++ cancel ++ [CreateAutoDisconnect guild_id task])
      end
    end
  end.

(** ** Inactivity watchdog *)

Definition check_interval : Z := 5.

Definition nonempty {A} (l : list A) : bool :=
  match l with [] => false | _ :: _ => true end.

(** The test [members or voice_client.is_playing() or queue] of one pass. *)
Definition busy (guild_id : Z) (voice_client : voice_client) (st : bot_state) : bool :=
  let queue := queue_of st guild_id in
  let members := non_bots (vc_members voice_client) in
  nonempty members || is_playing voice_client || nonempty queue.

Definition next_idle_seconds (idle_seconds : Z) (is_busy : bool) : Z :=
  if is_busy then 0 else idle_seconds + check_interval.

(** The body of [if idle_seconds >= 180].  On a successful
    [voice_client.disconnect()] the guild has no voice client any more; a
    raising one has stopped the player before it raises, and is swallowed. *)
Definition teardown (guild_id : Z) (disconnect_raises : bool) (st : bot_state)
    : bot_state * list effect :=
  let st := if disconnect_raises then set_voice_clients (alter vc_stop guild_id) st
            else set_voice_clients (delete guild_id) st in
  let st := set_guild_playing <[guild_id := false]> st in
  let st := set_guild_queues <[guild_id := []]> st in
  let st := set_skip_votes <[guild_id := ∅]> st in
  let st := set_disconnect_tasks (delete guild_id) st in
  (st, [VoiceDisconnect guild_id; Send MsgIdleLeft]).

Inductive task_state :=
| Sleeping (idle_seconds : Z)
| Finished.

(** One pass of the [while True] body, up to the [sleep] or the [break]. *)
Definition auto_disconnect_pass (guild_id : Z) (voice_client : voice_client)
    (disconnect_raises : bool) (idle_seconds : Z) (st : bot_state)
    : task_state * bot_state * list effect :=
  let idle_seconds := next_idle_seconds idle_seconds (busy guild_id voice_client st) in
  if 180 <=? idle_seconds
  then let '(st, out) := teardown guild_id disconnect_raises st in (Finished, st, out)
  else (Sleeping idle_seconds, st, []).

(** What the task finds when it wakes up: the voice client object it holds,
    the dictionaries as other handlers left them, and whether a disconnect
    would raise. *)
Record poll := Poll {
  p_voice_client : voice_client;
  p_state : bot_state;
  p_disconnect_raises : bool
}.

Definition p_busy (guild_id : Z) (p : poll) : bool :=
  busy guild_id (p_voice_client p) (p_state p).

(** The loop over successive wake-ups; the result is the state of the task
    after the last one and everything it did. *)
Fixpoint auto_disconnect_loop (guild_id : Z) (idle_seconds : Z) (polls : list poll)
    : task_state * list effect :=
  match polls with
  | [] => (Sleeping idle_seconds, [])
  | p :: rest =>
    match auto_disconnect_pass guild_id (p_voice_client p) (p_disconnect_raises p)
                               idle_seconds (p_state p) with
    | (Sleeping idle_seconds, _, out) =>
      let '(w, tr) := auto_disconnect_loop guild_id idle_seconds rest in (w, out ++ tr)
    | (Finished, _, out) => (Finished, out)
    end
  end.

(** [auto_disconnect]: returns at once without a voice client. *)
Definition auto_disconnect (guild_id : Z) (voice_client : option voice_client)
    (polls : list poll) : task_state * list effect :=
  match voice_client with
  | None => (Finished, [])
  | Some _ => auto_disconnect_loop guild_id 0 polls
  end.

(** ** Metadata fetch *)

(** The dict returned by yt-dlp, as far as [fetch_song] reads it.
    [i_uploader] distinguishes a missing key from a [None] value because of
    the default in [info.get("uploader", "Unknown")]; [i_thumbnails] holds the
    ["url"] of each thumbnail. *)
Record info := Info {
  i_title : option string;
  i_webpage_url : option string;
  i_url : option string;
  i_duration : option Z;
  i_thumbnails : option (list (option string));
  i_uploader : option (option string)
}.

(** The outcome of [ydl.extract_info(query, download=False)]: an
    exception, a falsy value, a dict with ["entries"], or a plain dict. *)
Inductive extract_result :=
| ExtractRaises (e : exn)
| ExtractNothing
| ExtractEntries (entries : list info)
| ExtractInfo (i : info).

Definition song_of_info (i : info) : song :=
  Song (i_title i) (i_webpage_url i) (i_url i) (i_duration i)
       (match i_thumbnails i with
        | Some (t :: ts) => List.last (t :: ts) None
        | _ => None
        end)
       (default (Some "Unknown"%string) (i_uploader i))
       None.

Section Bot.

(** The module-level [CREATOR_USER_ID] ([None] when the variable is unset or
    not a number) and the resolver behind [ydl.extract_info]. *)
Variable CREATOR_USER_ID : option Z.
Variable extract_info : string → extract_result.

(** Truth value of [CREATOR_USER_ID and author_id == CREATOR_USER_ID]. *)
Definition is_creator (author_id : Z) : bool :=
  match CREATOR_USER_ID with
  | Some c => negb (c =? 0) && (author_id =? c)
  | None => false
  end.

Definition fetch_song (query : string) : exn + song :=
  match extract_info query with
  | ExtractRaises e => inl e
  | ExtractNothing => inl (RuntimeError "yt-dlp returned no info.")
  | ExtractEntries [] => inl IndexError
  | ExtractEntries (i :: _) => inr (song_of_info i)
  | ExtractInfo i => inr (song_of_info i)
  end.

Definition preload_song (query : string) (requester : Z) (st : bot_state)
    : exn + (song * bot_state) :=
  match fetch_song query with
  | inl e => inl e
  | inr s =>
    let s := Song (title s) (webpage_url s) (audio_url s) (duration s)
                  (thumbnail s) (channel s) (Some requester) in
    inr (s, set_audio_cache <[webpage_url s := audio_url s]> st)
  end.

(** ** play *)

(** [connect_raises] is the exception of [channel.connect()], if any. *)
Definition play (connect_raises : option exn) (play_raises : bool)
    (ctx : context) (query : string) (st : bot_state) : bot_state * list effect :=
  let guild_id := guild ctx in
  let st := set_guild_queues (setdefault guild_id []) st in
  let st := set_guild_playing (setdefault guild_id false) st in
  let st := set_guild_volumes (setdefault guild_id 1%float) st in
  let connected : (bot_state * list effect) + (bot_state * list effect) :=
    match voice_clients st !! guild_id with
    | Some _ => inr (st, [])
    | None =>
      match voice_channel (author ctx) with
      | Some members =>
        match connect_raises with
        | Some e => inl (st, [Send (MsgConnectFailed e)])
        | None =>
          inr (set_voice_clients <[guild_id := VoiceClient members false false None None]> st,
               [VoiceConnect guild_id])
        end
      | None => inl (st, [Send MsgMustBeInVoiceToPlay])
      end
    end in
  match connected with
  | inl r => r
  | inr (st, out) =>
    let out := out ++ [Send (MsgLoading query)] in
    match preload_song query (a_id (author ctx)) st with
    | inl e => (st, out ++ [Send (MsgErrorLoading e)])
    | inr (s, st) =>
      let st := set_guild_queues <[guild_id := queue_of st guild_id ++ [s]]> st in
      let out := out ++ [Send (MsgAddedToQueue s)] in
      if default false (guild_playing st !! guild_id)
      then (st, out)
      else let '(st, out') := play_next play_raises ctx st in (st, out ++ out')
    end
  end.

(** ** stop *)

(** [disconnect_raises] tells whether [ctx.voice_client.disconnect()]
    raises; it has stopped the player by then, and the exception is
    swallowed. *)
Definition stop (disconnect_raises : bool) (ctx : context) (st : bot_state)
    : bot_state * list effect :=
  if match CREATOR_USER_ID with
     | Some c => negb (c =? 0) && negb (a_id (author ctx) =? c)
     | None => false
     end
  then (st, [Send MsgCreatorOnly])
  else
    let guild_id := guild ctx in
    let '(st, out) :=
      match voice_clients st !! guild_id with
      | Some _ =>
        let st := set_guild_queues <[guild_id := []]> st in
        let st := set_guild_playing <[guild_id := false]> st in
        let st := if disconnect_raises
                  then set_voice_clients (alter vc_stop guild_id) st
                  else set_voice_clients (delete guild_id) st in
        (st, [VoiceDisconnect guild_id; Send MsgStopped])
      | None => (st, [Send MsgNotConnected])
      end in
    match disconnect_tasks st !! guild_id with
    | Some t => (set_disconnect_tasks (delete guild_id) st, out ++ [CancelTask t])
    | None => (st, out)
    end.

(** ** remove *)

(** [queue.remove(song)]: drops the first element equal to [song];
    [None] is the [ValueError] of a missing one. *)
Fixpoint deque_remove (x : song) (queue : list song) : option (list song) :=
  match queue with
  | [] => None
  | y :: rest =>
    if decide (y = x) then Some rest
    else (λ r, y :: r) <$> deque_remove x rest
  end.

Definition remove (ctx : context) (queue_no : Z) (st : bot_state)
    : bot_state * list effect :=
  let guild_id := guild ctx in
  let queue := queue_of st guild_id in
  if negb (nonempty queue) then (st, [Send MsgQueueEmpty])
  else
    let total_len := Z.of_nat (length queue) + 1 in
    if (queue_no <? 2) || (total_len <? queue_no)
    then (st, [Send (MsgInvalidQueueNumber total_len)])
    else
      match queue !! Z.to_nat (queue_no - 2) with
      | None => (st, [Raise IndexError])
      | Some s =>
        let allowed :=
          bool_decide (Some (a_id (author ctx)) = requester_id s)
          || is_creator (a_id (author ctx)) in
        if negb allowed then (st, [Send MsgRemoveNotAllowed])
        else
          match deque_remove s queue with
          | Some queue' =>
            (set_guild_queues <[guild_id := queue']> st, [Send (MsgRemoved (title s))])
          | None => (st, [Send MsgCouldNotFind])
          end
      end.

(** ** volume *)

(** [vol / 100.0] for [0 <= vol <= 200]: the int converts exactly. *)
Definition percent_to_gain (vol : Z) : float :=
  (PrimFloat.of_uint63 (Uint63.of_Z vol) / 100)%float.

Definition volume (ctx : context) (vol : Z) (st : bot_state)
    : bot_state * list effect :=
  let guild_id := guild ctx in
  match voice_clients st !! guild_id with
  | None => (st, [Send MsgNothingPlaying])
  | Some vc =>
    match current_song vc with
    | None => (st, [Send MsgNothingPlaying])
    | Some _ =>
      if (vol <? 0) || (200 <? vol) then (st, [Send MsgVolumeRange])
      else
        let st := set_guild_volumes <[guild_id := percent_to_gain vol]> st in
        let st := set_voice_clients
                    <[guild_id := vc_set_source_volume (percent_to_gain vol) vc]> st in
        (st, [Send (MsgVolumeSet vol)])
    end
  end.

End Bot.

(** ** Vocabulary of the statements *)

(** The state every resolved skip ends in. *)
Definition skip_resolved (g : Z) (vc : voice_client) (st : bot_state) : bot_state :=
  set_skip_votes <[g := ∅]>
    (set_voice_clients <[g := vc_stop vc]> (set_skip_votes (setdefault g ∅) st)).

Definition resolution_message (m : message) : Prop :=
  m = MsgRequesterOverride ∨ m = MsgOGOverride ∨ ∃ c n, m = MsgSkipPassed c n.

(** Polls [i], ..., [i + n - 1] exist and all find the guild idle. *)
Definition idle_run (g : Z) (polls : list poll) (i n : nat) : Prop :=
  ∀ j, (j < n)%nat → p_busy g <$> polls !! (i + j)%nat = Some false.

Definition is_disconnect (e : effect) : bool :=
  match e with VoiceDisconnect _ => true | _ => false end.

(** How often the task disconnected in what it did. *)
Definition teardowns (tr : list effect) : nat :=
  length (List.filter is_disconnect tr).

Definition invalid_position (out : list effect) : bool :=
  match out with
  | [Send (MsgInvalidQueueNumber _)] => true
  | _ => false
  end.

(** [getattr(vc, "current_song", None)] of the guild's voice client. *)
Definition current_of (st : bot_state) (g : Z) : option song :=
  voice_clients st !! g ≫= current_song.

(** The dictionaries after the three [setdefault]s at the top of [play]. *)
Definition play_defaults (g : Z) (st : bot_state) : bot_state :=
  set_guild_volumes (setdefault g 1%float)
    (set_guild_playing (setdefault g false) (set_guild_queues (setdefault g []) st)).

(** ** Sample data of the examples *)

Definition st0 : bot_state :=
  BotState ∅ ∅ ∅ ∅ ∅ ∅ ∅ 0.

Definition track_a : song :=
  Song (Some "A"%string) (Some "https://a"%string) (Some "stream-a"%string)
       (Some 215) None (Some "Unknown"%string) (Some 1).

Definition track_b : song :=
  Song (Some "B"%string) (Some "https://b"%string) (Some "stream-b"%string)
       (Some 180) None (Some "Unknown"%string) (Some 2).

Definition humans (n : nat) : list member :=
  (λ i, Member (Z.of_nat i) false) <$> seq 1 n.

(** A guild (10) where [track_a] plays to [n] people and the bot. *)
Definition playing_a (n : nat) : bot_state :=
  set_voice_clients
    <[10 := VoiceClient (Member 99 true :: humans n) true false (Some track_a) (Some 1%float)]>
    (set_guild_playing <[10 := true]> (set_guild_queues <[10 := [track_b]]> st0)).

Definition caller (id : Z) (n : nat) : context :=
  Context 10 (Author id [] (Some (Member 99 true :: humans n))).

(** The same guild once [track_a] has run out: the player is gone, the
    guild is still marked playing, and [track_b] waits in the queue. *)
Definition ended_a (n : nat) : bot_state :=
  set_voice_clients
    <[10 := VoiceClient (Member 99 true :: humans n) false false (Some track_a) None]>
    (set_guild_playing <[10 := true]> (set_guild_queues <[10 := [track_b]]> st0)).

(** An idle guild: only the bot is in the channel, nothing plays, nothing
    is queued. *)
Definition idle_poll : poll :=
  Poll (VoiceClient [Member 99 true] false false (Some track_a) None) st0 false.

Definition no_result (query : string) : extract_result := ExtractNothing.

(** A cache whose entry for [track_b] differs from the song's own locator. *)
Definition refreshed_b : bot_state :=
  set_audio_cache <[Some "https://b"%string := Some "stream-b2"%string]> (ended_a 4).

(** ** format_duration *)

Definition LIVE : string := "🔴 Live".

(** [f"{n:02d}"]: the decimal digits, with a leading zero below width 2. *)
Definition format_02d (n : Z) : string :=
  let digits := pretty n in
  if (String.length digits <? 2)%nat then "0" +:+ digits else digits.

(** [format_duration]; [None] is a missing or [None] duration. *)
Definition format_duration (seconds : option Z) : string :=
  match seconds with
  | None => LIVE
  | Some seconds =>
    if seconds =? 0 then LIVE
    else
      let m := seconds / 60 in
      let s := seconds mod 60 in
      let h := m / 60 in
      let m := m mod 60 in
      if h =? 0 then format_02d m +:+ ":" +:+ format_02d s
      else format_02d h +:+ ":" +:+ format_02d m +:+ ":" +:+ format_02d s
  end.

(** ** pause and resume *)

(** The texts only [pause] and [resume] send. *)
Inductive control_message :=
| MsgPauseDenied
| MsgPaused
| MsgCouldNotPause (e : exn)
| MsgNothingPaused
| MsgResumeDenied
| MsgResumed
| MsgCouldNotResume (e : exn).

Inductive control_effect :=
| Shared (e : effect)
| SendControl (m : control_message)
| VoicePause (guild_id : Z)
| VoiceResume (guild_id : Z).

(** [voice_client.pause()] and [voice_client.resume()] on a live player. *)
Definition vc_pause (vc : voice_client) : voice_client :=
  VoiceClient (vc_members vc) false true (current_song vc) (source vc).

Definition vc_resume (vc : voice_client) : voice_client :=
  VoiceClient (vc_members vc) true false (current_song vc) (source vc).

Section Controls.

Variable CREATOR_USER_ID : option Z.

(** The test both handlers make when the voice client has a current song. *)
Definition control_allowed (ctx : context) (vc : voice_client) : bool :=
  match current_song vc with
  | Some current =>
    bool_decide (Some (a_id (author ctx)) = requester_id current)
    || is_creator CREATOR_USER_ID (a_id (author ctx))
  | None => true
  end.

(** [pause_raises] is the exception of [vc.pause()], if any. *)
Definition pause (pause_raises : option exn) (ctx : context) (st : bot_state)
    : bot_state * list control_effect :=
  let guild_id := guild ctx in
  match voice_clients st !! guild_id with
  | None => (st, [Shared (Send MsgNothingPlaying)])
  | Some vc =>
    if negb (is_playing vc) then (st, [Shared (Send MsgNothingPlaying)])
    else if negb (control_allowed ctx vc) then (st, [SendControl MsgPauseDenied])
    else
      match pause_raises with
      | Some e => (st, [SendControl (MsgCouldNotPause e)])
      | None =>
        (set_voice_clients <[guild_id := vc_pause vc]> st,
         [VoicePause guild_id; SendControl MsgPaused])
      end
  end.

Definition resume (resume_raises : option exn) (ctx : context) (st : bot_state)
    : bot_state * list control_effect :=
  let guild_id := guild ctx in
  match voice_clients st !! guild_id with
  | None => (st, [SendControl MsgNothingPaused])
  | Some vc =>
    if negb (is_paused vc) then (st, [SendControl MsgNothingPaused])
    else if negb (control_allowed ctx vc) then (st, [SendControl MsgResumeDenied])
    else
      match resume_raises with
      | Some e => (st, [SendControl (MsgCouldNotResume e)])
      | None =>
        (set_voice_clients <[guild_id := vc_resume vc]> st,
         [VoiceResume guild_id; SendControl MsgResumed])
      end
  end.

End Controls.

(** ** queue *)

(** One [embed.add_field]: its name and the three values its text is made
    of (title, requester, duration). *)
Record embed_field := EmbedField {
  f_name : string;
  f_title : option string;
  f_requester : string;
  f_duration : string
}.

Inductive queue_reply :=
| ReplyText (m : message)
| ReplyEmbed (fields : list embed_field).

Definition NOW_PLAYING : string := "▶ Now Playing".

Section Display.

(** [ctx.guild.get_member(id)], as the display name of the member found. *)
Variable get_member : Z → option string.

Definition requester_name (s : song) : string :=
  match requester_id s with
  | Some id => if id =? 0 then "Unknown" else default "Unknown" (get_member id)
  | None => "Unknown"
  end.

(** [label] of the loop: ["Next"] first, then [f"{idx + 2}th"]. *)
Definition queue_label (idx : nat) : string :=
  match idx with
  | O => "Next"
  | S _ => pretty (Z.of_nat idx + 2) +:+ "th"
  end.

Definition song_field (name : string) (s : song) : embed_field :=
  EmbedField name (title s) (requester_name s) (format_duration (duration s)).

Definition queue (ctx : context) (st : bot_state) : queue_reply :=
  let guild_id := guild ctx in
  let queue := queue_of st guild_id in
  let current := voice_clients st !! guild_id ≫= current_song in
  if negb (nonempty queue) && negb (bool_decide (is_Some current))
  then ReplyText MsgQueueEmpty
  else
    ReplyEmbed
      (match current with
       | Some current => [song_field NOW_PLAYING current]
       | None => []
       end
       ++ imap (λ idx s, song_field (queue_label idx) s) queue).

End Display.

(** ** Vocabulary of the further statements *)

(** Everything the dictionaries hold for one guild. *)
Definition session (st : bot_state) (g : Z)
    : option (list song) * option bool * option (gset Z) * option nat
      * option float * option voice_client :=
  (guild_queues st !! g, guild_playing st !! g, skip_votes st !! g,
   disconnect_tasks st !! g, guild_volumes st !! g, voice_clients st !! g).

(** [0.0 <= gain <= 2.0]. *)
Definition gain_ok (gain : float) : bool :=
  PrimFloat.leb 0%float gain && PrimFloat.leb gain 2%float.

Definition volumes_ok (st : bot_state) : Prop :=
  ∀ g v, guild_volumes st !! g = Some v → gain_ok v = true.

(** The number of idle polls since the last busy one, after [k] before. *)
Definition trailing_idle (g : Z) (k : nat) (polls : list poll) : nat :=
  fold_left (λ k p, if p_busy g p then 0%nat else S k) polls k.

(** The song [preload_song] makes of a fetched one. *)
Definition with_requester (s : song) (requester : Z) : song :=
  Song (title s) (webpage_url s) (audio_url s) (duration s)
       (thumbnail s) (channel s) (Some requester).

(** The state after [play] has resolved and appended a song. *)
Definition enqueued (g : Z) (s : song) (st : bot_state) : bot_state :=
  set_guild_queues <[g := queue_of st g ++ [s]]>
    (set_audio_cache <[webpage_url s := audio_url s]> (play_defaults g st)).

(** Further sample data: a resolver with one search result, and a guild
    whose bot sits idle in a channel. *)
Definition resolve_b (query : string) : extract_result :=
  ExtractEntries
    [Info (Some "B"%string) (Some "https://b"%string) (Some "stream-b3"%string)
          (Some 180) None None].

(** A resolver whose result has no [url]. *)
Definition resolve_no_url (query : string) : extract_result :=
  ExtractInfo (Info (Some "C"%string) (Some "https://c"%string) None None None None).

Definition connected_idle : bot_state :=
  set_voice_clients <[10 := VoiceClient (humans 4) false false None None]> st0.

Definition resolved_b : song :=
  with_requester (song_of_info
    (Info (Some "B"%string) (Some "https://b"%string) (Some "stream-b3"%string)
          (Some 180) None None)) 3.

(** * Properties *)

(** ** Dictionary reads after an update *)

Lemma votes_of_setdefault st g :
  votes_of (set_skip_votes (setdefault g ∅) st) g = votes_of st g.
Proof.
  unfold votes_of, setdefault; simpl.
  destruct (skip_votes st !! g) eqn:E; [by rewrite E | by rewrite lookup_insert_eq].
Qed.

Lemma votes_of_insert st g v :
  votes_of (set_skip_votes <[g := v]> st) g = v.
Proof. unfold votes_of; simpl. by rewrite lookup_insert_eq. Qed.

Lemma skip_resolved_votes g vc st : votes_of (skip_resolved g vc st) g = ∅.
Proof. apply votes_of_insert. Qed.

Lemma skip_resolved_voice_client g vc st :
  voice_clients (skip_resolved g vc st) !! g = Some (vc_stop vc).
Proof. unfold skip_resolved; simpl. by rewrite lookup_insert_eq. Qed.

(** ** Skip: the requester override *)

(** C8: while something plays and the caller is in a voice channel, a skip
    by the requester of the current song stops it and empties the vote set,
    whatever votes are registered and however many members are present. *)
Theorem skip_requester_override (ctx : context) (st : bot_state)
    (vc : voice_client) (cur : song) (members : list member) :
  voice_clients st !! guild ctx = Some vc →
  is_playing vc = true →
  voice_channel (author ctx) = Some members →
  current_song vc = Some cur →
  requester_id cur = Some (a_id (author ctx)) →
  snd (skip ctx st) = [VoiceStop (guild ctx); Send MsgRequesterOverride]
  ∧ (∃ vc', voice_clients (fst (skip ctx st)) !! guild ctx = Some vc'
            ∧ is_playing vc' = false ∧ source vc' = None)
  ∧ votes_of (fst (skip ctx st)) (guild ctx) = ∅.
Proof.
  intros Hvc Hplay Hchan Hcur Hreq.
  assert (skip ctx st = (skip_resolved (guild ctx) vc st,
                         [VoiceStop (guild ctx); Send MsgRequesterOverride])) as ->.
  { unfold skip. rewrite Hvc, Hplay, Hchan, Hcur, Hreq. simpl.
    by rewrite bool_decide_eq_true_2. }
  cbn [fst snd]. split; [done|]. split.
  - exists (vc_stop vc). by rewrite skip_resolved_voice_client.
  - apply skip_resolved_votes.
Qed.

Lemma skip_requester_override_witness :
  snd (skip (caller 1 5) (playing_a 5)) = [VoiceStop 10; Send MsgRequesterOverride]
  ∧ (∃ vc', voice_clients (fst (skip (caller 1 5) (playing_a 5))) !! 10 = Some vc'
            ∧ is_playing vc' = false ∧ source vc' = None)
  ∧ votes_of (fst (skip (caller 1 5) (playing_a 5))) 10 = ∅.
Proof.
  apply (skip_requester_override (caller 1 5) (playing_a 5)
           (VoiceClient (Member 99 true :: humans 5) true false (Some track_a) (Some 1%float))
           track_a (Member 99 true :: humans 5)); reflexivity.
Defined.

(** ** Skip: the vote path *)

Lemma skip_vote_path (ctx : context) (st : bot_state) (vc : voice_client)
    (members : list member) :
  voice_clients st !! guild ctx = Some vc →
  is_playing vc = true →
  voice_channel (author ctx) = Some members →
  (∀ cur, current_song vc = Some cur → requester_id cur ≠ Some (a_id (author ctx))) →
  og_role (author ctx) = false →
  let g := guild ctx in
  let voters := {[a_id (author ctx)]} ∪ votes_of st g in
  let voted := set_skip_votes <[g := voters]> (set_skip_votes (setdefault g ∅) st) in
  skip ctx st =
    if (votes_needed (non_bots members) <=? size voters)%nat
    then (set_skip_votes <[g := ∅]> (set_voice_clients <[g := vc_stop vc]> voted),
          [VoiceStop g; Send (MsgSkipPassed (size voters) (length (non_bots members)))])
    else (voted, [Send (MsgSkipVoteRegistered (size voters)
                                              (votes_needed (non_bots members)))]).
Proof.
  intros Hvc Hplay Hchan Hreq Hog g voters voted. subst g voters voted.
  unfold skip. rewrite Hvc, Hplay, Hchan, Hog. cbn [negb].
  assert (match current_song vc with
          | Some current => bool_decide (Some (a_id (author ctx)) = requester_id current)
          | None => false
          end = false) as ->.
  { destruct (current_song vc) as [cur|] eqn:E; [|done].
    apply bool_decide_eq_false_2. intros Heq. by apply (Hreq cur). }
  rewrite !votes_of_insert, votes_of_setdefault. reflexivity.
Qed.

(** C1 (amended): on the vote path the votes needed are
    [max(1, present // 2)] for the non-bot members present; the skip passes,
    stopping playback and emptying the vote set, exactly when the distinct
    voters (the old set plus the caller) reach that number, and otherwise the
    vote is registered and the voice client is left alone.  1 member needs 1
    vote, 3 members need 1, 4 need 2 and 5 need 2. *)
Theorem skip_vote_threshold (ctx : context) (st : bot_state) (vc : voice_client)
    (members : list member) :
  voice_clients st !! guild ctx = Some vc →
  is_playing vc = true →
  voice_channel (author ctx) = Some members →
  (∀ cur, current_song vc = Some cur → requester_id cur ≠ Some (a_id (author ctx))) →
  og_role (author ctx) = false →
  let g := guild ctx in
  let voters := {[a_id (author ctx)]} ∪ votes_of st g in
  let present := length (non_bots members) in
  let needed := votes_needed (non_bots members) in
  needed = Nat.max 1 (present / 2)
  ∧ ((needed ≤ size voters)%nat →
      snd (skip ctx st) = [VoiceStop g; Send (MsgSkipPassed (size voters) present)]
      ∧ voice_clients (fst (skip ctx st)) !! g = Some (vc_stop vc)
      ∧ votes_of (fst (skip ctx st)) g = ∅)
  ∧ ((size voters < needed)%nat →
      snd (skip ctx st) = [Send (MsgSkipVoteRegistered (size voters) needed)]
      ∧ voice_clients (fst (skip ctx st)) = voice_clients st
      ∧ votes_of (fst (skip ctx st)) g = voters)
  ∧ (present = 1%nat → needed = 1%nat)
  ∧ (present = 3%nat → needed = 1%nat)
  ∧ (present = 4%nat → needed = 2%nat)
  ∧ (present = 5%nat → needed = 2%nat).
Proof.
  intros Hvc Hplay Hchan Hreq Hog g voters present needed.
  pose proof (skip_vote_path ctx st vc members Hvc Hplay Hchan Hreq Hog) as Hskip.
  cbv zeta in Hskip. fold g voters needed present in Hskip.
  split; [reflexivity|]. split; [|split].
  - intros Hle. apply Nat.leb_le in Hle. rewrite Hskip, Hle. cbn [fst snd].
    split; [done|]. split.
    + simpl. by rewrite lookup_insert_eq.
    + apply votes_of_insert.
  - intros Hlt. apply Nat.leb_gt in Hlt. rewrite Hskip, Hlt. cbn [fst snd].
    split; [done|]. split; [done|].
    apply votes_of_insert.
  - unfold needed, votes_needed. fold present.
    repeat split; intros ->; reflexivity.
Qed.

Lemma skip_vote_threshold_witness :
  snd (skip (caller 2 4) (playing_a 4)) = [Send (MsgSkipVoteRegistered 1 2)]
  ∧ snd (skip (caller 2 1) (playing_a 1)) = [VoiceStop 10; Send (MsgSkipPassed 1 1)].
Proof.
  split.
  - refine (proj1 (proj1 (proj2 (proj2
      (skip_vote_threshold (caller 2 4) (playing_a 4)
         (VoiceClient (Member 99 true :: humans 4) true false (Some track_a) (Some 1%float))
         (Member 99 true :: humans 4) _ _ _ _ _))) _)).
    + reflexivity.
    + reflexivity.
    + reflexivity.
    + intros cur [= <-]. discriminate.
    + reflexivity.
    + vm_compute. lia.
  - refine (proj1 (proj1 (proj2
      (skip_vote_threshold (caller 2 1) (playing_a 1)
         (VoiceClient (Member 99 true :: humans 1) true false (Some track_a) (Some 1%float))
         (Member 99 true :: humans 1) _ _ _ _ _)) _)).
    + reflexivity.
    + reflexivity.
    + reflexivity.
    + intros cur [= <-]. discriminate.
    + reflexivity.
    + vm_compute. lia.
Defined.

(** C1, as stated, fails on its last example: with three members present
    the threshold is 1, so the first vote of a plain member already passes. *)
Lemma skip_three_members_counterexample :
  votes_needed (non_bots (Member 99 true :: humans 3)) ≠ 2%nat
  ∧ votes_of (playing_a 3) 10 = ∅
  ∧ snd (skip (caller 2 3) (playing_a 3)) = [VoiceStop 10; Send (MsgSkipPassed 1 3)].
Proof. split; [|split]; [vm_compute; lia | reflexivity | reflexivity]. Qed.

(** ** When the vote set is emptied *)

Lemma skip_outcomes (ctx : context) (st : bot_state) :
  (∃ m, snd (skip ctx st) = [VoiceStop (guild ctx); Send m]
        ∧ resolution_message m
        ∧ votes_of (fst (skip ctx st)) (guild ctx) = ∅)
  ∨ (∃ m, snd (skip ctx st) = [Send m] ∧ ¬ resolution_message m).
Proof.
  unfold skip.
  destruct (voice_clients st !! guild ctx) as [vc|];
    [|right; eexists; split; [done|]; intros [?|[?|(?&?&?)]]; done].
  destruct (is_playing vc); cbn [negb];
    [|right; eexists; split; [done|]; intros [?|[?|(?&?&?)]]; done].
  destruct (voice_channel (author ctx)) as [members|];
    [|right; eexists; split; [done|]; intros [?|[?|(?&?&?)]]; done].
  repeat case_match; cbn [fst snd].
  all: try (left; eexists; split; [done|]; split;
            [unfold resolution_message; eauto | apply votes_of_insert]).
  all: right; eexists; split; [done|]; intros [?|[?|(?&?&?)]]; done.
Qed.

(** Every resolved skip empties the vote set of the guild, [skip] stops the
    player exactly with the requester override, the OG override and the
    passed vote, and the inactivity teardown empties the set too;
    [play_next] never writes [skip_votes]. *)
Theorem skip_votes_cleared_on_resolution (ctx : context) (st : bot_state) :
  (In (VoiceStop (guild ctx)) (snd (skip ctx st)) →
     votes_of (fst (skip ctx st)) (guild ctx) = ∅)
  ∧ (∀ m, In (Send m) (snd (skip ctx st)) →
          (resolution_message m ↔ In (VoiceStop (guild ctx)) (snd (skip ctx st))))
  ∧ (∀ disconnect_raises,
        votes_of (fst (teardown (guild ctx) disconnect_raises st)) (guild ctx) = ∅)
  ∧ (∀ play_raises, skip_votes (fst (play_next play_raises ctx st)) = skip_votes st).
Proof.
  split; [|split; [|split]].
  - intros Hin.
    destruct (skip_outcomes ctx st) as [(m & Hout & _ & Hvotes)|(m & Hout & _)]; [done|].
    rewrite Hout in Hin. destruct Hin as [|[]]; discriminate.
  - intros m Hin.
    destruct (skip_outcomes ctx st) as [(m' & Hout & Hres & _)|(m' & Hout & Hres)];
      rewrite Hout in Hin |- *.
    + destruct Hin as [|[[= ->]|[]]]; [discriminate|].
      split; [intros _; by left | done].
    + destruct Hin as [[= ->]|[]].
      split; [done | intros [|[]]; discriminate].
  - intros r. unfold teardown, votes_of. cbn [fst]. simpl. by rewrite lookup_insert_eq.
  - intros r. unfold play_next.
    repeat case_match; reflexivity.
Qed.

Lemma skip_votes_cleared_on_resolution_witness :
  votes_of (fst (skip (caller 1 5) (playing_a 5))) 10 = ∅.
Proof.
  apply (proj1 (skip_votes_cleared_on_resolution (caller 1 5) (playing_a 5))).
  simpl. by left.
Defined.

(** C2: the vote set is not emptied when a new song starts.  The vote
    member 4 cast while [track_a] played is still registered after
    [play_next] has started [track_b]; with four members present, two votes
    are needed, and the single vote of member 3 then passes the skip of
    [track_b]. *)
Theorem play_next_keeps_stale_votes :
  let st := set_skip_votes <[10 := {[4]}]> (ended_a 4) in
  let st' := fst (play_next false (caller 1 4) st) in
  snd (play_next false (caller 1 4) st)
    = [Send (MsgNowPlaying track_b); VoicePlay 10 (Some "stream-b"%string) 1%float;
       CreateAutoDisconnect 10 0]
  ∧ (current_song <$> voice_clients st' !! 10) = Some (Some track_b)
  ∧ votes_of st' 10 = {[4]}
  ∧ votes_needed (non_bots (Member 99 true :: humans 4)) = 2%nat
  ∧ snd (skip (caller 3 4) st') = [VoiceStop 10; Send (MsgSkipPassed 2 4)].
Proof. repeat split; reflexivity. Qed.

(** ** The inactivity watchdog *)

Lemma busy_true_iff (g : Z) (vc : voice_client) (st : bot_state) :
  busy g vc st = true ↔
  non_bots (vc_members vc) ≠ [] ∨ is_playing vc = true ∨ queue_of st g ≠ [].
Proof.
  unfold busy.
  destruct (non_bots (vc_members vc)), (is_playing vc), (queue_of st g);
    simpl; split; intros H; try done; try (by eauto).
  by destruct H as [|[|]].
Qed.

Lemma auto_disconnect_pass_eq (g : Z) (vc : voice_client) (r : bool) (idle : Z)
    (st : bot_state) :
  auto_disconnect_pass g vc r idle st =
    if busy g vc st then (Sleeping 0, st, [])
    else if 180 <=? idle + check_interval
         then (Finished, fst (teardown g r st), snd (teardown g r st))
         else (Sleeping (idle + check_interval), st, []).
Proof.
  unfold auto_disconnect_pass, next_idle_seconds.
  destruct (busy g vc st); [reflexivity|].
  destruct (180 <=? idle + check_interval); reflexivity.
Qed.

Lemma idle_run_nil g i n : idle_run g [] i (S n) → False.
Proof. intros H. specialize (H 0%nat ltac:(lia)). by rewrite lookup_nil in H. Qed.

Lemma idle_run_cons_S g p rest i n :
  idle_run g (p :: rest) (S i) n ↔ idle_run g rest i n.
Proof. unfold idle_run. by split; intros H j Hj; apply (H j Hj). Qed.

Lemma idle_run_cons_0 g p rest n :
  idle_run g (p :: rest) 0 (S n) ↔ p_busy g p = false ∧ idle_run g rest 0 n.
Proof.
  unfold idle_run. split.
  - intros H. split.
    + specialize (H 0%nat ltac:(lia)). by injection H.
    + intros j Hj. apply (H (S j)). lia.
  - intros [Hp H] [|j] Hj; simpl; [by rewrite Hp|]. apply H. lia.
Qed.

Lemma idle_run_weaken g polls i m n :
  (m ≤ n)%nat → idle_run g polls i n → idle_run g polls i m.
Proof. intros Hmn H j Hj. apply H. lia. Qed.

Lemma auto_disconnect_loop_cons (g : Z) (idle : Z) (p : poll) (rest : list poll) :
  auto_disconnect_loop g idle (p :: rest) =
    if p_busy g p then auto_disconnect_loop g 0 rest
    else if 180 <=? idle + check_interval
         then (Finished, snd (teardown g (p_disconnect_raises p) (p_state p)))
         else auto_disconnect_loop g (idle + check_interval) rest.
Proof.
  cbn [auto_disconnect_loop].
  rewrite auto_disconnect_pass_eq. fold (p_busy g p).
  destruct (p_busy g p).
  - by destruct (auto_disconnect_loop g 0 rest).
  - destruct (180 <=? idle + check_interval); [reflexivity|].
    by destruct (auto_disconnect_loop g (idle + check_interval) rest).
Qed.

(** With [k] idle polls already counted, the task ends iff the next
    [36 - k] polls are idle too or some later 36 polls in a row are. *)
Lemma auto_disconnect_loop_finished (g : Z) (polls : list poll) :
  ∀ k, (k < 36)%nat →
  fst (auto_disconnect_loop g (check_interval * Z.of_nat k) polls) = Finished ↔
  idle_run g polls 0 (36 - k) ∨ ∃ i, idle_run g polls i 36.
Proof.
  induction polls as [|p rest IH]; intros k Hk.
  - simpl. split; [done|].
    replace (36 - k)%nat with (S (35 - k)) by lia.
    intros [H|[i H]]; by apply idle_run_nil in H.
  - rewrite auto_disconnect_loop_cons.
    replace (36 - k)%nat with (S (35 - k)) by lia. rewrite idle_run_cons_0.
    destruct (p_busy g p) eqn:Hp.
    + specialize (IH 0%nat ltac:(lia)).
      replace (check_interval * Z.of_nat 0) with 0 in IH by (unfold check_interval; lia).
      rewrite IH. split.
      * intros [H|[i H]]; right; [exists 1%nat | exists (S i)];
          by apply idle_run_cons_S.
      * intros [[? _]|[[|i] H]]; [done| |].
        -- apply idle_run_cons_0 in H as [? _]. congruence.
        -- right. exists i. by apply idle_run_cons_S in H.
    + destruct (180 <=? check_interval * Z.of_nat k + check_interval) eqn:Hlim.
      * apply Z.leb_le in Hlim. unfold check_interval in Hlim.
        assert (k = 35%nat) as -> by lia. simpl.
        split; [|done]. intros _. left. split; [done|]. intros j Hj. lia.
      * apply Z.leb_gt in Hlim. unfold check_interval in Hlim.
        specialize (IH (S k) ltac:(lia)).
        replace (check_interval * Z.of_nat (S k))
          with (check_interval * Z.of_nat k + check_interval) in IH
          by (unfold check_interval; lia).
        rewrite IH. replace (36 - S k)%nat with (35 - k)%nat by lia. split.
        -- intros [H|[i H]]; [by left|]. right. exists (S i). by apply idle_run_cons_S.
        -- intros [[_ H]|[[|i] H]]; [by left| |].
           ++ left. apply idle_run_cons_0 in H as [_ H].
              apply (idle_run_weaken g rest 0 (35 - k) 35); [lia|done].
           ++ right. exists i. by apply idle_run_cons_S in H.
Qed.

Lemma auto_disconnect_loop_teardowns (g : Z) (polls : list poll) :
  ∀ idle,
  teardowns (snd (auto_disconnect_loop g idle polls)) =
    match fst (auto_disconnect_loop g idle polls) with
    | Finished => 1%nat
    | Sleeping _ => 0%nat
    end.
Proof.
  induction polls as [|p rest IH]; intros idle; [reflexivity|].
  rewrite auto_disconnect_loop_cons.
  destruct (p_busy g p); [by apply IH|].
  destruct (180 <=? idle + check_interval); [reflexivity|].
  apply IH.
Qed.

(** C3: a pass of the watchdog puts the idle count back to 0 when a non-bot
    member is in the channel, the player plays or the queue is not empty, and
    adds 5 seconds otherwise.  When the count reaches 180 the pass
    disconnects (a raising disconnect is swallowed), marks the guild not
    playing, empties its queue and its vote set, drops the task handle and
    ends the task.  Over any sequence of wake-ups the task ends iff 36 of
    them in a row (36 * 5 = 180 seconds) found the guild idle, and it
    disconnects once in that case and never otherwise. *)
Theorem auto_disconnect_idle_timeout (g : Z) (vc0 : voice_client) (polls : list poll) :
  (∀ vc st, busy g vc st = true ↔
      non_bots (vc_members vc) ≠ [] ∨ is_playing vc = true ∨ queue_of st g ≠ [])
  ∧ (∀ vc r idle st, busy g vc st = true →
      auto_disconnect_pass g vc r idle st = (Sleeping 0, st, []))
  ∧ (∀ vc r idle st, busy g vc st = false → idle + check_interval < 180 →
      auto_disconnect_pass g vc r idle st = (Sleeping (idle + check_interval), st, []))
  ∧ (∀ vc r idle st, busy g vc st = false → 180 ≤ idle + check_interval →
      ∃ st', auto_disconnect_pass g vc r idle st
               = (Finished, st', [VoiceDisconnect g; Send MsgIdleLeft])
             ∧ guild_playing st' !! g = Some false
             ∧ queue_of st' g = []
             ∧ votes_of st' g = ∅
             ∧ disconnect_tasks st' !! g = None)
  ∧ (fst (auto_disconnect g (Some vc0) polls) = Finished ↔ ∃ i, idle_run g polls i 36)
  ∧ ((∃ i, idle_run g polls i 36) →
      teardowns (snd (auto_disconnect g (Some vc0) polls)) = 1%nat)
  ∧ (¬ (∃ i, idle_run g polls i 36) →
      teardowns (snd (auto_disconnect g (Some vc0) polls)) = 0%nat)
  ∧ 36 * check_interval = 180.
Proof.
  assert (fst (auto_disconnect g (Some vc0) polls) = Finished
          ↔ ∃ i, idle_run g polls i 36) as Hrun.
  { cbn [auto_disconnect].
    pose proof (auto_disconnect_loop_finished g polls 0 ltac:(lia)) as H.
    replace (check_interval * Z.of_nat 0) with 0 in H by reflexivity.
    rewrite H. split; [|by right]. intros [H36|H36]; [by exists 0%nat|done]. }
  pose proof (auto_disconnect_loop_teardowns g polls 0) as Hcount.
  split; [apply busy_true_iff|].
  split; [intros vc r idle st Hb; by rewrite auto_disconnect_pass_eq, Hb|].
  split.
  { intros vc r idle st Hb Hlt. rewrite auto_disconnect_pass_eq, Hb.
    apply Z.leb_gt in Hlt. by rewrite Hlt. }
  split.
  { intros vc r idle st Hb Hle. rewrite auto_disconnect_pass_eq, Hb.
    apply Z.leb_le in Hle. rewrite Hle.
    eexists. split; [reflexivity|].
    unfold teardown, queue_of, votes_of. cbn [fst]. simpl.
    by rewrite !lookup_insert_eq, lookup_delete_eq. }
  split; [exact Hrun|].
  split.
  - intros Hex. apply Hrun in Hex. cbn [auto_disconnect] in Hex |- *.
    by rewrite Hcount, Hex.
  - split; [|reflexivity]. intros Hno. cbn [auto_disconnect] in Hrun |- *.
    rewrite Hcount.
    destruct (fst (auto_disconnect_loop g 0 polls)) eqn:E; [done|].
    exfalso. apply Hno. by apply Hrun.
Qed.

Lemma auto_disconnect_idle_timeout_witness :
  (∃ st', auto_disconnect_pass 10 (p_voice_client idle_poll) true 175 st0
            = (Finished, st', [VoiceDisconnect 10; Send MsgIdleLeft])
          ∧ guild_playing st' !! 10 = Some false
          ∧ queue_of st' 10 = []
          ∧ votes_of st' 10 = ∅
          ∧ disconnect_tasks st' !! 10 = None)
  ∧ auto_disconnect_pass 10 (p_voice_client idle_poll) false 175 (playing_a 0)
      = (Sleeping 0, playing_a 0, []).
Proof.
  split.
  - apply (proj1 (proj2 (proj2 (proj2
      (auto_disconnect_idle_timeout 10 (p_voice_client idle_poll) []))))
      (p_voice_client idle_poll) true 175 st0); [reflexivity | vm_compute; discriminate].
  - apply (proj1 (proj2
      (auto_disconnect_idle_timeout 10 (p_voice_client idle_poll) []))).
    reflexivity.
Defined.

(** ** stop *)

Lemma stop_unguarded (c : Z) (r : bool) (ctx : context) (st : bot_state) :
  c = 0 ∨ a_id (author ctx) = c →
  stop (Some c) r ctx st = stop None r ctx st.
Proof.
  intros Hc. unfold stop.
  assert (negb (c =? 0) && negb (a_id (author ctx) =? c) = false) as ->; [|done].
  destruct Hc as [->| ->]; [done|].
  rewrite Z.eqb_refl. by rewrite andb_false_r.
Qed.

(** C4 (amended): when a creator id is configured (a non-zero number), a
    caller with another id is turned away and nothing changes.  The creator
    passes the guard, and so does every caller when no creator id is
    configured ([None], or the falsy 0): the handler then does for anybody
    what it does for the creator, and with a voice client it empties the
    queue, marks the guild not playing and drops the watchdog handle. *)
Theorem stop_creator_only (CREATOR_USER_ID : option Z) (disconnect_raises : bool)
    (ctx : context) (st : bot_state) :
  (∀ c, CREATOR_USER_ID = Some c → c ≠ 0 → a_id (author ctx) ≠ c →
      stop CREATOR_USER_ID disconnect_raises ctx st = (st, [Send MsgCreatorOnly]))
  ∧ (∀ c, CREATOR_USER_ID = Some c → c = 0 ∨ a_id (author ctx) = c →
      stop CREATOR_USER_ID disconnect_raises ctx st = stop None disconnect_raises ctx st)
  ∧ ¬ In (Send MsgCreatorOnly) (snd (stop None disconnect_raises ctx st))
  ∧ (is_Some (voice_clients st !! guild ctx) →
      queue_of (fst (stop None disconnect_raises ctx st)) (guild ctx) = []
      ∧ guild_playing (fst (stop None disconnect_raises ctx st)) !! guild ctx = Some false
      ∧ disconnect_tasks (fst (stop None disconnect_raises ctx st)) !! guild ctx = None
      ∧ In (VoiceDisconnect (guild ctx)) (snd (stop None disconnect_raises ctx st))).
Proof.
  split; [|split; [|split]].
  - intros c -> Hc Hne. unfold stop.
    apply Z.eqb_neq in Hc, Hne. by rewrite Hc, Hne.
  - intros c -> Hc. by apply stop_unguarded.
  - unfold stop.
    destruct (voice_clients st !! guild ctx) as [vc|]; cbn beta iota zeta;
      repeat case_match; cbn [snd app]; intros Hin;
      repeat (destruct Hin as [Hin|Hin]; [discriminate|]); done.
  - intros [vc Hvc]. unfold stop. rewrite Hvc. cbn beta iota zeta.
    assert (∀ st1 : bot_state,
              disconnect_tasks (set_disconnect_tasks (delete (guild ctx)) st1)
                !! guild ctx = None) as Hdel.
    { intros st1. simpl. apply lookup_delete_eq. }
    destruct disconnect_raises; case_match eqn:Htask; cbn [fst snd];
      unfold queue_of; simpl; rewrite ?lookup_insert_eq, ?lookup_delete_eq;
      simpl in Htask; rewrite ?Htask; auto.
Qed.

Lemma stop_creator_only_witness :
  stop (Some 42) false (caller 5 4) (playing_a 4) = (playing_a 4, [Send MsgCreatorOnly])
  ∧ queue_of (fst (stop None false (caller 5 4) (playing_a 4))) 10 = [].
Proof.
  split.
  - apply (proj1 (stop_creator_only (Some 42) false (caller 5 4) (playing_a 4)) 42);
      [reflexivity | lia | simpl; lia].
  - apply (proj2 (proj2 (proj2
      (stop_creator_only None false (caller 5 4) (playing_a 4))))).
    vm_compute. eauto.
Defined.

(** C4, as stated, fails when no creator id is configured: anybody stops
    the session. *)
Lemma stop_without_creator_counterexample :
  snd (stop None false (caller 5 4) (playing_a 4)) = [VoiceDisconnect 10; Send MsgStopped]
  ∧ queue_of (playing_a 4) 10 = [track_b]
  ∧ queue_of (fst (stop None false (caller 5 4) (playing_a 4))) 10 = []
  ∧ guild_playing (fst (stop None false (caller 5 4) (playing_a 4))) !! 10 = Some false
  ∧ voice_clients (fst (stop None false (caller 5 4) (playing_a 4))) !! 10 = None.
Proof. repeat split; reflexivity. Qed.

(** ** remove *)

Lemma deque_remove_perm (x : song) (l l' : list song) :
  deque_remove x l = Some l' → l ≡ₚ x :: l'.
Proof.
  revert l'. induction l as [|y rest IH]; intros l' H; [done|].
  simpl in H. destruct (decide (y = x)) as [->|Hne].
  - by injection H as ->.
  - destruct (deque_remove x rest) as [r|]; [|done].
    injection H as <-. rewrite (IH r eq_refl). apply Permutation_swap.
Qed.

Lemma deque_remove_elem_of (x : song) (l : list song) :
  x ∈ l → is_Some (deque_remove x l).
Proof.
  induction l as [|y rest IH]; intros Hin; [by apply elem_of_nil in Hin|].
  simpl. destruct (decide (y = x)); [eauto|].
  apply elem_of_cons in Hin as [->|Hin]; [done|].
  destruct (IH Hin) as [r ->]. eauto.
Qed.

Lemma deque_remove_NoDup (x : song) (l : list song) (i : nat) :
  NoDup l → l !! i = Some x → deque_remove x l = Some (delete i l).
Proof.
  revert i. induction l as [|y rest IH]; intros i Hnd Hi; [done|].
  apply NoDup_cons in Hnd as [Hy Hnd]. destruct i as [|i]; simpl in Hi |- *.
  - injection Hi as ->. by rewrite decide_True.
  - rewrite decide_False.
    + by rewrite (IH i Hnd Hi).
    + intros ->. apply Hy. by eapply list_elem_of_lookup_2.
Qed.

(** C5 (amended): with an empty queue every position is answered "queue is
    empty".  With [N >= 1] queued songs a position below 2 (so position 1,
    the playing song) or above [N + 1] is answered "invalid queue number"
    and nothing changes.  A position [p] in [2..N+1] selects [queue[p-2]]:
    a caller who is neither its requester nor the creator is refused, and
    otherwise one song equal to it leaves the queue, which is the song at
    that place when the queue holds no two equal songs. *)
Theorem remove_positions (CREATOR_USER_ID : option Z) (ctx : context) (p : Z)
    (st : bot_state) :
  let g := guild ctx in
  let queue := queue_of st g in
  let N := Z.of_nat (length queue) in
  (queue = [] → remove CREATOR_USER_ID ctx p st = (st, [Send MsgQueueEmpty]))
  ∧ (queue ≠ [] → p < 2 ∨ N + 2 ≤ p →
      remove CREATOR_USER_ID ctx p st = (st, [Send (MsgInvalidQueueNumber (N + 1))]))
  ∧ (2 ≤ p ≤ N + 1 →
      ∃ s, queue !! Z.to_nat (p - 2) = Some s
        ∧ (bool_decide (Some (a_id (author ctx)) = requester_id s)
             || is_creator CREATOR_USER_ID (a_id (author ctx)) = false →
           remove CREATOR_USER_ID ctx p st = (st, [Send MsgRemoveNotAllowed]))
        ∧ (bool_decide (Some (a_id (author ctx)) = requester_id s)
             || is_creator CREATOR_USER_ID (a_id (author ctx)) = true →
           ∃ queue',
             remove CREATOR_USER_ID ctx p st
               = (set_guild_queues <[g := queue']> st, [Send (MsgRemoved (title s))])
             ∧ queue ≡ₚ s :: queue'
             ∧ (NoDup queue → queue' = delete (Z.to_nat (p - 2)) queue))).
Proof.
  intros g queue N. unfold remove. fold g. fold queue.
  split; [|split].
  - intros ->. reflexivity.
  - intros Hne Hp. destruct queue as [|s0 q0] eqn:Hq; [done|]. cbn [nonempty negb].
    fold N.
    assert ((p <? 2) || (N + 1 <? p) = true) as ->; [|done].
    apply orb_true_iff. destruct Hp; [left; lia | right; lia].
  - intros Hp.
    assert (queue ≠ []) as Hne.
    { intros Hq. subst N. rewrite Hq in Hp. simpl in Hp. lia. }
    destruct queue as [|s0 q0] eqn:Hq; [done|]. cbn [nonempty negb]. fold N.
    assert ((p <? 2) || (N + 1 <? p) = false) as ->.
    { apply orb_false_iff. split; lia. }
    destruct (lookup_lt_is_Some_2 (s0 :: q0) (Z.to_nat (p - 2))) as [s Hs].
    { subst N. lia. }
    exists s. split; [done|]. rewrite Hs. split.
    + intros ->. reflexivity.
    + intros ->. cbn [negb].
      destruct (deque_remove_elem_of s (s0 :: q0)) as [queue' Hrm].
      { by eapply list_elem_of_lookup_2. }
      exists queue'. rewrite Hrm. split; [done|]. split.
      * by apply deque_remove_perm.
      * intros Hnd. rewrite (deque_remove_NoDup s (s0 :: q0) _ Hnd Hs) in Hrm.
        by injection Hrm.
Qed.

Lemma remove_positions_witness :
  remove None (caller 1 4) 1 (playing_a 4)
    = (playing_a 4, [Send (MsgInvalidQueueNumber 2)])
  ∧ remove None (caller 1 4) 3 (playing_a 4)
    = (playing_a 4, [Send (MsgInvalidQueueNumber 2)]).
Proof.
  split.
  - apply (proj1 (proj2 (remove_positions None (caller 1 4) 1 (playing_a 4))));
      [discriminate | left; lia].
  - apply (proj1 (proj2 (remove_positions None (caller 1 4) 3 (playing_a 4))));
      [discriminate | right; vm_compute; discriminate].
Defined.

(** C5, as stated, fails on an empty queue: position 1 is answered "queue is
    empty", not "invalid queue number". *)
Lemma remove_empty_queue_counterexample :
  queue_of st0 10 = []
  ∧ remove None (caller 1 4) 1 st0 = (st0, [Send MsgQueueEmpty])
  ∧ invalid_position (snd (remove None (caller 1 4) 1 st0)) = false.
Proof. repeat split; reflexivity. Qed.

(** With two equal songs queued, [queue.remove(song)] takes the first. *)
Example remove_duplicate_example :
  let st := set_guild_queues <[10 := [track_a; track_b; track_a]]> st0 in
  queue_of (fst (remove None (caller 1 4) 4 st)) 10 = [track_b; track_a].
Proof. reflexivity. Qed.

(** ** volume *)

Lemma volume_nothing_playing (ctx : context) (vol : Z) (st : bot_state) :
  current_of st (guild ctx) = None →
  volume ctx vol st = (st, [Send MsgNothingPlaying]).
Proof.
  unfold current_of, volume. intros H.
  destruct (voice_clients st !! guild ctx) as [vc|]; [|done].
  simpl in H. by rewrite H.
Qed.

(** C6 (amended): a volume between 0 and 200 is accepted when the guild's
    voice client carries a current song: the stored volume becomes
    [vol / 100.0] and, if a source is bound, its volume is set to the same
    value in place; without a source only the stored volume changes.
    Without a voice client or a current song the request is answered
    "nothing is playing" and the stored volume is not touched. *)
Theorem volume_in_range (ctx : context) (vol : Z) (st : bot_state) :
  0 ≤ vol ≤ 200 →
  let g := guild ctx in
  (∀ vc cur, voice_clients st !! g = Some vc → current_song vc = Some cur →
      snd (volume ctx vol st) = [Send (MsgVolumeSet vol)]
      ∧ guild_volumes (fst (volume ctx vol st)) !! g = Some (percent_to_gain vol)
      ∧ voice_clients (fst (volume ctx vol st)) !! g
          = Some (vc_set_source_volume (percent_to_gain vol) vc)
      ∧ (is_Some (source vc) →
           source (vc_set_source_volume (percent_to_gain vol) vc)
             = Some (percent_to_gain vol))
      ∧ (source vc = None →
           vc_set_source_volume (percent_to_gain vol) vc = vc))
  ∧ (current_of st g = None → volume ctx vol st = (st, [Send MsgNothingPlaying])).
Proof.
  intros Hvol g. split; [|apply volume_nothing_playing].
  intros vc cur Hvc Hcur. unfold volume. fold g. rewrite Hvc, Hcur.
  assert ((vol <? 0) || (200 <? vol) = false) as ->.
  { apply orb_false_iff. split; lia. }
  cbn [fst snd]. split; [done|]. simpl. rewrite !lookup_insert_eq.
  split; [done|]. split; [done|]. split.
  - intros [v Hv]. unfold vc_set_source_volume. by rewrite Hv.
  - intros Hv. destruct vc as [ms pl pa cs src]. simpl in Hv. by subst src.
Qed.

Lemma volume_in_range_witness :
  snd (volume (caller 3 4) 150 (playing_a 4)) = [Send (MsgVolumeSet 150)]
  ∧ guild_volumes (fst (volume (caller 3 4) 150 (playing_a 4))) !! 10 = Some 1.5%float
  ∧ voice_clients (fst (volume (caller 3 4) 150 (playing_a 4))) !! 10
      = Some (VoiceClient (Member 99 true :: humans 4) true false (Some track_a)
                          (Some 1.5%float)).
Proof.
  destruct (proj1 (volume_in_range (caller 3 4) 150 (playing_a 4) ltac:(lia))
              (VoiceClient (Member 99 true :: humans 4) true false (Some track_a)
                           (Some 1%float))
              track_a eq_refl eq_refl) as (H1 & H2 & H3 & _).
  split; [exact H1|]. split; [exact H2|exact H3].
Defined.

(** C6, as stated, fails without a voice client: the request is turned
    away and the stored volume stays what it was. *)
Lemma volume_without_voice_client_counterexample :
  let st := set_guild_volumes <[10 := 1%float]> st0 in
  volume (caller 3 4) 50 st = (st, [Send MsgNothingPlaying])
  ∧ guild_volumes (fst (volume (caller 3 4) 50 st)) !! 10 = Some 1%float
  ∧ guild_volumes (fst (volume (caller 3 4) 50 st)) !! 10 ≠ Some (percent_to_gain 50).
Proof.
  split; [reflexivity|]. split; [reflexivity|].
  intros H. apply (f_equal (λ o, match o with
                                  | Some v => PrimFloat.ltb v 1%float
                                  | None => false
                                  end)) in H.
  vm_compute in H. discriminate.
Qed.

(** C7 (amended): a volume below 0 or above 200 never changes anything,
    neither the stored volume nor the voice client and its source.  The
    answer is "volume must be between 0 and 200" when the voice client
    carries a current song, and "nothing is playing" otherwise, since that
    test comes first. *)
Theorem volume_out_of_range (ctx : context) (vol : Z) (st : bot_state) :
  vol < 0 ∨ 200 < vol →
  fst (volume ctx vol st) = st
  ∧ snd (volume ctx vol st)
      = match current_of st (guild ctx) with
        | Some _ => [Send MsgVolumeRange]
        | None => [Send MsgNothingPlaying]
        end.
Proof.
  intros Hvol. destruct (current_of st (guild ctx)) as [cur|] eqn:Hcur.
  - unfold current_of in Hcur. unfold volume.
    destruct (voice_clients st !! guild ctx) as [vc|]; [|done].
    simpl in Hcur. rewrite Hcur.
    assert ((vol <? 0) || (200 <? vol) = true) as ->; [|done].
    apply orb_true_iff. destruct Hvol; [left|right]; lia.
  - by rewrite volume_nothing_playing.
Qed.

Lemma volume_out_of_range_witness :
  fst (volume (caller 3 4) 250 (playing_a 4)) = playing_a 4
  ∧ snd (volume (caller 3 4) 250 (playing_a 4)) = [Send MsgVolumeRange].
Proof.
  apply (volume_out_of_range (caller 3 4) 250 (playing_a 4)). right. lia.
Defined.

(** C7, as stated, fails without a voice client: the answer to an
    out-of-range volume is then "nothing is playing". *)
Lemma volume_out_of_range_counterexample :
  volume (caller 3 4) 250 st0 = (st0, [Send MsgNothingPlaying])
  ∧ snd (volume (caller 3 4) 250 st0) ≠ [Send MsgVolumeRange].
Proof. split; [reflexivity | discriminate]. Qed.

(** ** play: a failing resolution *)

Lemma queue_of_setdefault (st : bot_state) (g g' : Z) :
  queue_of (set_guild_queues (setdefault g []) st) g' = queue_of st g'.
Proof.
  unfold queue_of, setdefault; simpl.
  destruct (guild_queues st !! g) eqn:E; [done|].
  destruct (decide (g = g')) as [<-|Hne].
  - by rewrite lookup_insert_eq, E.
  - by rewrite lookup_insert_ne.
Qed.

Lemma fetch_song_fails_iff (extract_info : string → extract_result) (query : string) :
  (∃ e, fetch_song extract_info query = inl e) ↔
  (∃ e, extract_info query = ExtractRaises e)
  ∨ extract_info query = ExtractNothing
  ∨ extract_info query = ExtractEntries [].
Proof.
  unfold fetch_song. destruct (extract_info query) as [e| |[|i entries]|i]; split.
  all: try (intros [e' H]; discriminate).
  all: try (intros [[e' H]|[H|H]]; discriminate).
  all: eauto.
Qed.

Lemma play_failure (extract_info : string → extract_result)
    (connect_raises : option exn) (play_raises : bool) (ctx : context)
    (query : string) (st : bot_state) (e : exn) :
  fetch_song extract_info query = inl e →
  play extract_info connect_raises play_raises ctx query st =
    let g := guild ctx in
    match voice_clients st !! g with
    | Some _ => (play_defaults g st, [Send (MsgLoading query); Send (MsgErrorLoading e)])
    | None =>
      match voice_channel (author ctx) with
      | Some members =>
        match connect_raises with
        | Some e' => (play_defaults g st, [Send (MsgConnectFailed e')])
        | None =>
          (set_voice_clients <[g := VoiceClient members false false None None]>
             (play_defaults g st),
           [VoiceConnect g; Send (MsgLoading query); Send (MsgErrorLoading e)])
        end
      | None => (play_defaults g st, [Send MsgMustBeInVoiceToPlay])
      end
    end.
Proof.
  intros Hfetch.
  assert (∀ st1, preload_song extract_info query (a_id (author ctx)) st1 = inl e) as Hpre.
  { intros st1. unfold preload_song. by rewrite Hfetch. }
  unfold play. cbn zeta. fold (play_defaults (guild ctx) st).
  change (voice_clients (play_defaults (guild ctx) st)) with (voice_clients st).
  destruct (voice_clients st !! guild ctx) as [vc|]; [by rewrite Hpre|].
  destruct (voice_channel (author ctx)) as [members|]; [|done].
  destruct connect_raises as [e'|]; [done|]. by rewrite Hpre.
Qed.

(** C9: when [fetch_song] raises (the resolver raises, returns nothing, or
    returns an empty result list), [play] appends no song: the queue of every
    guild reads as before and so does the locator cache, no "added to queue"
    is sent, and once the bot is in a voice channel the last thing sent is the
    error of the resolver. *)
Theorem play_resolution_failure (extract_info : string → extract_result)
    (connect_raises : option exn) (play_raises : bool) (ctx : context)
    (query : string) (st : bot_state) (e : exn) :
  fetch_song extract_info query = inl e →
  let r := play extract_info connect_raises play_raises ctx query st in
  (∀ g, queue_of (fst r) g = queue_of st g)
  ∧ audio_cache (fst r) = audio_cache st
  ∧ (∀ s, ¬ In (Send (MsgAddedToQueue s)) (snd r))
  ∧ (is_Some (voice_clients st !! guild ctx)
     ∨ (is_Some (voice_channel (author ctx)) ∧ connect_raises = None) →
     last (snd r) = Some (Send (MsgErrorLoading e)))
  ∧ ((∃ e', extract_info query = ExtractRaises e')
     ∨ extract_info query = ExtractNothing
     ∨ extract_info query = ExtractEntries []).
Proof.
  intros Hfetch r. subst r.
  rewrite (play_failure _ connect_raises play_raises ctx query st e Hfetch). cbn zeta.
  split; [|split; [|split; [|split]]].
  - intros g. repeat case_match; cbn [fst]; apply queue_of_setdefault.
  - repeat case_match; reflexivity.
  - intros s. repeat case_match; cbn [snd]; intros Hin;
      repeat (destruct Hin as [Hin|Hin]; [discriminate|]); done.
  - intros Hconn.
    destruct (voice_clients st !! guild ctx) as [vc|] eqn:Hvc; [done|].
    destruct Hconn as [[? ?]|[[ms Hms] ->]]; [done|].
    by rewrite Hms.
  - apply fetch_song_fails_iff. eauto.
Qed.

Lemma play_resolution_failure_witness :
  queue_of (fst (play no_result None false (caller 3 4) "song" (playing_a 4))) 10
    = [track_b]
  ∧ last (snd (play no_result None false (caller 3 4) "song" (playing_a 4)))
    = Some (Send (MsgErrorLoading (RuntimeError "yt-dlp returned no info."))).
Proof.
  destruct (play_resolution_failure no_result None false (caller 3 4) "song"
              (playing_a 4) (RuntimeError "yt-dlp returned no info.") eq_refl)
    as (Hq & _ & _ & Hlast & _).
  split; [exact (Hq 10)|]. apply Hlast. left. vm_compute. eauto.
Defined.

(** ** The locator handed to the player *)

Lemma play_next_plays (r : bool) (ctx : context) (st : bot_state) (s : song)
    (rest : list song) (vc : voice_client) :
  queue_of st (guild ctx) = s :: rest →
  voice_clients st !! guild ctx = Some vc →
  snd (play_next r ctx st) =
    match cached_locator st s with
    | None => [Send (MsgNowPlaying s); Raise TypeError]
    | Some audio_url =>
      if r || is_playing vc
      then [Send (MsgNowPlaying s); CreatePlayNext (guild ctx)]
      else [Send (MsgNowPlaying s);
            VoicePlay (guild ctx) (Some audio_url)
                      (default 1%float (guild_volumes st !! guild ctx))]
             ++ match disconnect_tasks st !! guild ctx with
                | Some t => [CancelTask t]
                | None => []
                end
             ++ [CreateAutoDisconnect (guild ctx) (next_task st)]
    end.
Proof.
  intros Hq Hvc. unfold play_next. rewrite Hq. cbv zeta.
  change (voice_clients (set_guild_queues <[guild ctx:=rest]> st))
    with (voice_clients st).
  rewrite Hvc.
  change (cached_locator (set_voice_clients _ (set_guild_playing _ (set_guild_queues _ st))) s)
    with (cached_locator st s).
  destruct (cached_locator st s) as [url|]; [|done].
  change (is_playing (vc_set_current_song s vc)) with (is_playing vc).
  by destruct (r || is_playing vc).
Qed.

(** C10: whatever [play_next] hands to the player is the cache entry under
    the song's [webpage_url] when there is one, and the song's own
    [audio_url] only when there is none; on a client that is not playing it
    does start the song from that locator.  Every resolved [preload_song]
    writes the freshly resolved [audio_url] into the cache under the song's
    [webpage_url], over whatever was there. *)
Theorem play_next_cached_locator (ctx : context) (st : bot_state) (s : song)
    (rest : list song) (vc : voice_client) :
  queue_of st (guild ctx) = s :: rest →
  voice_clients st !! guild ctx = Some vc →
  (∀ r g locator gain,
      In (VoicePlay g locator gain) (snd (play_next r ctx st)) →
      g = guild ctx ∧ locator = cached_locator st s)
  ∧ (∀ audio_url, is_playing vc = false → cached_locator st s = Some audio_url →
      ∃ gain post,
        snd (play_next false ctx st)
          = Send (MsgNowPlaying s) :: VoicePlay (guild ctx) (Some audio_url) gain :: post)
  ∧ (∀ l, audio_cache st !! webpage_url s = Some l → cached_locator st s = l)
  ∧ (audio_cache st !! webpage_url s = None → cached_locator st s = audio_url s)
  ∧ (∀ extract_info query requester st1 s0,
        fetch_song extract_info query = inr s0 →
        ∃ s' st',
          preload_song extract_info query requester st1 = inr (s', st')
          ∧ webpage_url s' = webpage_url s0
          ∧ audio_url s' = audio_url s0
          ∧ audio_cache st' !! webpage_url s0 = Some (audio_url s0)
          ∧ cached_locator st' s' = audio_url s0
          ∧ (∀ k, k ≠ webpage_url s0 → audio_cache st' !! k = audio_cache st1 !! k)).
Proof.
  intros Hq Hvc. split_and!.
  - intros r g locator gain. rewrite (play_next_plays r ctx st s rest vc Hq Hvc).
    destruct (cached_locator st s) as [url|].
    + destruct (r || is_playing vc); cbn [app]; intros Hin.
      * repeat (destruct Hin as [Hin|Hin]; [discriminate|]). done.
      * destruct Hin as [Hin|[Hin|Hin]]; [discriminate| |].
        -- by injection Hin as <- <- <-.
        -- exfalso. destruct (disconnect_tasks st !! guild ctx);
             repeat (destruct Hin as [Hin|Hin]; [discriminate|]); done.
    + intros Hin. repeat (destruct Hin as [Hin|Hin]; [discriminate|]). done.
  - intros url Hplay Hloc. rewrite (play_next_plays false ctx st s rest vc Hq Hvc).
    rewrite Hloc, Hplay. cbn [orb app]. eauto.
  - intros l Hl. unfold cached_locator. by rewrite Hl.
  - intros Hl. unfold cached_locator. by rewrite Hl.
  - intros extract_info query requester st1 s0 Hfetch.
    unfold preload_song. rewrite Hfetch. eexists _, _. split; [reflexivity|].
    unfold cached_locator. simpl. rewrite lookup_insert_eq.
    split_and!; try done.
    intros k Hk. by rewrite lookup_insert_ne.
Qed.

Lemma play_next_cached_locator_witness :
  (∃ gain post,
     snd (play_next false (caller 3 4) refreshed_b)
       = Send (MsgNowPlaying track_b)
           :: VoicePlay 10 (Some "stream-b2"%string) gain :: post)
  ∧ (∃ s' st',
       preload_song resolve_b "b" 3 refreshed_b = inr (s', st')
       ∧ audio_cache refreshed_b !! Some "https://b"%string
           = Some (Some "stream-b2"%string)
       ∧ audio_cache st' !! Some "https://b"%string = Some (Some "stream-b3"%string)).
Proof.
  assert (queue_of refreshed_b (guild (caller 3 4)) = [track_b]) as Hq by reflexivity.
  assert (voice_clients refreshed_b !! guild (caller 3 4)
          = Some (VoiceClient (Member 99 true :: humans 4) false false (Some track_a)
                              None)) as Hvc by reflexivity.
  destruct (play_next_cached_locator (caller 3 4) refreshed_b track_b [] _ Hq Hvc)
    as (_ & Hstart & _ & _ & Hpre).
  split.
  - exact (Hstart "stream-b2"%string eq_refl eq_refl).
  - destruct (Hpre resolve_b "b"%string 3 refreshed_b
                (song_of_info (Info (Some "B"%string) (Some "https://b"%string)
                                    (Some "stream-b3"%string) (Some 180) None None))
                eq_refl)
      as (s' & st' & H1 & _ & _ & H4 & _).
    exists s', st'. split; [exact H1|]. split; [reflexivity | exact H4].
Defined.

(** * Further properties *)

(** ** format_duration *)

Lemma string_length_app (a b : string) :
  String.length (a +:+ b) = (String.length a + String.length b)%nat.
Proof. induction a as [|c a IH]; simpl; [done | by rewrite IH]. Qed.

Lemma format_02d_two_digits (n : Z) :
  0 ≤ n < 100 → String.length (format_02d n) = 2%nat.
Proof.
  intros Hn.
  assert (forallb (λ k, (String.length (format_02d (Z.of_nat k)) =? 2)%nat)
                  (seq 0 100) = true) as Hall by (vm_compute; reflexivity).
  rewrite forallb_forall in Hall.
  specialize (Hall (Z.to_nat n)). rewrite Z2Nat.id in Hall by lia.
  apply Nat.eqb_eq, Hall, in_seq. lia.
Qed.

(** X1: a missing or zero duration is shown as live.  A positive one is
    split into hours, minutes below 60 and seconds below 60 that add up to
    it again; below one hour the text is [mm:ss], always five characters,
    and from one hour on [hh:mm:ss] with at least eight. *)
Theorem format_duration_clock (seconds : Z) :
  0 < seconds →
  let h := seconds / 3600 in
  let m := (seconds / 60) mod 60 in
  let s := seconds mod 60 in
  h * 3600 + m * 60 + s = seconds
  ∧ 0 ≤ m < 60 ∧ 0 ≤ s < 60
  ∧ format_duration None = LIVE ∧ format_duration (Some 0) = LIVE
  ∧ (seconds < 3600 →
       format_duration (Some seconds) = format_02d m +:+ ":" +:+ format_02d s
       ∧ String.length (format_duration (Some seconds)) = 5%nat)
  ∧ (3600 ≤ seconds →
       format_duration (Some seconds)
         = format_02d h +:+ ":" +:+ format_02d m +:+ ":" +:+ format_02d s
       ∧ (String.length (format_02d h) + 6
            = String.length (format_duration (Some seconds)))%nat).
Proof.
  intros Hpos h m s.
  assert (seconds / 60 / 60 = h) as Hh.
  { subst h. rewrite Z.div_div by lia. reflexivity. }
  assert (0 ≤ m < 60) as Hm by (subst m; apply Z.mod_pos_bound; lia).
  assert (0 ≤ s < 60) as Hs by (subst s; apply Z.mod_pos_bound; lia).
  assert (h * 3600 + m * 60 + s = seconds) as Hsum.
  { pose proof (Z.div_mod seconds 60 ltac:(lia)) as H1.
    pose proof (Z.div_mod (seconds / 60) 60 ltac:(lia)) as H2.
    rewrite Hh in H2. fold m in H2. fold s in H1.
    clearbody h m s. lia. }
  assert (format_duration (Some seconds)
          = if h =? 0 then format_02d m +:+ ":" +:+ format_02d s
            else format_02d h +:+ ":" +:+ format_02d m +:+ ":" +:+ format_02d s) as Hfmt.
  { unfold format_duration.
    destruct (seconds =? 0) eqn:E; [apply Z.eqb_eq in E; lia|].
    cbv zeta. rewrite Hh. reflexivity. }
  split; [exact Hsum|]. split; [exact Hm|]. split; [exact Hs|].
  split; [reflexivity|]. split; [reflexivity|]. split.
  - intros Hlt.
    assert (h = 0) as Hh0 by (subst h; apply Z.div_small; lia).
    rewrite Hfmt, Hh0. cbn [Z.eqb]. split; [reflexivity|].
    rewrite !string_length_app, !format_02d_two_digits by lia. reflexivity.
  - intros Hge.
    assert (0 < h) as Hh0 by (subst h; apply Z.div_str_pos; lia).
    rewrite Hfmt. destruct (h =? 0) eqn:E; [apply Z.eqb_eq in E; lia|].
    split; [reflexivity|].
    rewrite !string_length_app.
    rewrite (format_02d_two_digits m), (format_02d_two_digits s) by lia. simpl. lia.
Qed.

Lemma format_duration_clock_witness :
  format_duration (Some 215) = "03:35"%string
  ∧ format_duration (Some 3725) = "01:02:05"%string.
Proof.
  split.
  - apply (proj1 (proj1 (proj2 (proj2 (proj2 (proj2 (proj2
      (format_duration_clock 215 ltac:(lia))))))) ltac:(lia))).
  - apply (proj1 (proj2 (proj2 (proj2 (proj2 (proj2 (proj2
      (format_duration_clock 3725 ltac:(lia))))))) ltac:(lia))).
Defined.

(** ** pause and resume *)

Lemma control_allowed_iff (C : option Z) (ctx : context) (vc : voice_client) (cur : song) :
  current_song vc = Some cur →
  control_allowed C ctx vc = true ↔
  requester_id cur = Some (a_id (author ctx))
  ∨ ∃ c, C = Some c ∧ c ≠ 0 ∧ a_id (author ctx) = c.
Proof.
  intros Hcur. unfold control_allowed, is_creator. rewrite Hcur.
  rewrite orb_true_iff, bool_decide_eq_true. split.
  - intros [H|H]; [by left|]. right. destruct C as [c|]; [|done].
    apply andb_true_iff in H as [H1 H2].
    exists c. apply negb_true_iff, Z.eqb_neq in H1. apply Z.eqb_eq in H2. done.
  - intros [H|(c & -> & Hc & Ha)]; [by left|]. right.
    apply andb_true_iff. split; [by apply negb_true_iff, Z.eqb_neq | by apply Z.eqb_eq].
Qed.

(** X2: while a song plays, [pause] works for its requester and for the
    configured creator and for nobody else: anybody else is refused and
    nothing changes.  Unlike [stop], an unset creator id opens nothing. *)
Theorem pause_requester_or_creator (CREATOR_USER_ID : option Z) (ctx : context)
    (st : bot_state) (vc : voice_client) (cur : song) :
  voice_clients st !! guild ctx = Some vc →
  is_playing vc = true →
  current_song vc = Some cur →
  let allowed := requester_id cur = Some (a_id (author ctx))
                 ∨ ∃ c, CREATOR_USER_ID = Some c ∧ c ≠ 0 ∧ a_id (author ctx) = c in
  (allowed →
     pause CREATOR_USER_ID None ctx st
       = (set_voice_clients <[guild ctx := vc_pause vc]> st,
          [VoicePause (guild ctx); SendControl MsgPaused]))
  ∧ (¬ allowed →
     ∀ pause_raises,
       pause CREATOR_USER_ID pause_raises ctx st = (st, [SendControl MsgPauseDenied]))
  ∧ (CREATOR_USER_ID = None → requester_id cur ≠ Some (a_id (author ctx)) →
     pause CREATOR_USER_ID None ctx st = (st, [SendControl MsgPauseDenied])).
Proof.
  intros Hvc Hplay Hcur allowed.
  pose proof (control_allowed_iff CREATOR_USER_ID ctx vc cur Hcur) as Hiff.
  fold allowed in Hiff.
  assert (¬ allowed → ∀ r, pause CREATOR_USER_ID r ctx st
                           = (st, [SendControl MsgPauseDenied])) as Hdenied.
  { intros Hno r. unfold pause. rewrite Hvc, Hplay. cbn [negb].
    destruct (control_allowed CREATOR_USER_ID ctx vc); [|done].
    exfalso. by apply Hno, Hiff. }
  split; [|split; [exact Hdenied|]].
  - intros Hok. apply Hiff in Hok. unfold pause. by rewrite Hvc, Hplay, Hok.
  - intros HC Hreq. apply Hdenied. intros [H|(c & H & _)]; [done|congruence].
Qed.

Lemma pause_requester_or_creator_witness :
  pause None None (caller 1 4) (playing_a 4)
    = (set_voice_clients
         <[10 := vc_pause (VoiceClient (Member 99 true :: humans 4) true false
                                       (Some track_a) (Some 1%float))]> (playing_a 4),
       [VoicePause 10; SendControl MsgPaused])
  ∧ pause None None (caller 2 4) (playing_a 4)
    = (playing_a 4, [SendControl MsgPauseDenied]).
Proof.
  split.
  - apply (proj1 (pause_requester_or_creator None (caller 1 4) (playing_a 4)
                    (VoiceClient (Member 99 true :: humans 4) true false
                                 (Some track_a) (Some 1%float))
                    track_a eq_refl eq_refl eq_refl)).
    left. reflexivity.
  - apply (proj2 (proj2 (pause_requester_or_creator None (caller 2 4) (playing_a 4)
                    (VoiceClient (Member 99 true :: humans 4) true false
                                 (Some track_a) (Some 1%float))
                    track_a eq_refl eq_refl eq_refl)));
      [reflexivity | discriminate].
Defined.

Lemma insert_back_voice_client (st : bot_state) (g : Z) (vc vc' : voice_client) :
  voice_clients st !! g = Some vc →
  set_voice_clients <[g := vc]> (set_voice_clients <[g := vc']> st) = st.
Proof.
  intros H. destruct st. unfold set_voice_clients; simpl in *.
  by rewrite insert_insert_eq, insert_id.
Qed.

(** X3: a successful [pause] followed by a [resume] of the same caller
    gives back the state before the pause. *)
Theorem pause_resume_round_trip (CREATOR_USER_ID : option Z) (ctx : context)
    (st : bot_state) (vc : voice_client) :
  voice_clients st !! guild ctx = Some vc →
  is_playing vc = true →
  is_paused vc = false →
  control_allowed CREATOR_USER_ID ctx vc = true →
  snd (pause CREATOR_USER_ID None ctx st)
    = [VoicePause (guild ctx); SendControl MsgPaused]
  ∧ resume CREATOR_USER_ID None ctx (fst (pause CREATOR_USER_ID None ctx st))
    = (st, [VoiceResume (guild ctx); SendControl MsgResumed]).
Proof.
  intros Hvc Hplay Hpaused Hok.
  assert (pause CREATOR_USER_ID None ctx st
          = (set_voice_clients <[guild ctx := vc_pause vc]> st,
             [VoicePause (guild ctx); SendControl MsgPaused])) as ->.
  { unfold pause. by rewrite Hvc, Hplay, Hok. }
  cbn [fst snd]. split; [done|].
  unfold resume. simpl. rewrite lookup_insert_eq. cbn [is_paused vc_pause negb].
  assert (control_allowed CREATOR_USER_ID ctx (vc_pause vc) = true) as -> by exact Hok.
  cbn [negb]. f_equal.
  assert (vc_resume (vc_pause vc) = vc) as ->.
  { destruct vc; simpl in *; by subst. }
  by apply insert_back_voice_client.
Qed.

Lemma pause_resume_round_trip_witness :
  resume None None (caller 1 4) (fst (pause None None (caller 1 4) (playing_a 4)))
    = (playing_a 4, [VoiceResume 10; SendControl MsgResumed]).
Proof.
  apply (proj2 (pause_resume_round_trip None (caller 1 4) (playing_a 4)
                  (VoiceClient (Member 99 true :: humans 4) true false
                               (Some track_a) (Some 1%float))
                  eq_refl eq_refl eq_refl eq_refl)).
Defined.

(** X4: once a song is paused, [skip] answers "nothing is currently
    playing" to every caller of the guild, its requester and OG members
    included, and the watchdog takes the guild for busy only if somebody is
    in the channel or a song is queued. *)
Theorem paused_song_cannot_be_skipped (CREATOR_USER_ID : option Z) (ctx ctx' : context)
    (st : bot_state) (vc : voice_client) :
  voice_clients st !! guild ctx = Some vc →
  is_playing vc = true →
  control_allowed CREATOR_USER_ID ctx vc = true →
  guild ctx' = guild ctx →
  let st' := fst (pause CREATOR_USER_ID None ctx st) in
  skip ctx' st' = (st', [Send MsgNothingCurrentlyPlaying])
  ∧ busy (guild ctx) (vc_pause vc) st'
    = nonempty (non_bots (vc_members vc)) || nonempty (queue_of st (guild ctx)).
Proof.
  intros Hvc Hplay Hok Hg st'.
  assert (st' = set_voice_clients <[guild ctx := vc_pause vc]> st) as ->.
  { subst st'. unfold pause. by rewrite Hvc, Hplay, Hok. }
  split.
  - unfold skip. rewrite Hg. simpl. by rewrite lookup_insert_eq.
  - unfold busy. simpl. by rewrite orb_false_r.
Qed.

Lemma paused_song_cannot_be_skipped_witness :
  skip (caller 1 4) (fst (pause None None (caller 1 4) (playing_a 4)))
    = (fst (pause None None (caller 1 4) (playing_a 4)),
       [Send MsgNothingCurrentlyPlaying]).
Proof.
  apply (proj1 (paused_song_cannot_be_skipped None (caller 1 4) (caller 1 4)
                  (playing_a 4)
                  (VoiceClient (Member 99 true :: humans 4) true false
                               (Some track_a) (Some 1%float))
                  eq_refl eq_refl eq_refl eq_refl)).
Defined.

(** ** skip: repeated votes, the OG override, what it leaves alone *)

Lemma vote_again (st : bot_state) (g : Z) (v : gset Z) :
  set_skip_votes <[g := v]>
    (set_skip_votes (setdefault g ∅) (set_skip_votes <[g := v]> st))
  = set_skip_votes <[g := v]> st.
Proof.
  destruct st. unfold set_skip_votes, setdefault; simpl.
  by rewrite lookup_insert_eq, insert_insert_eq.
Qed.

(** X5: a vote that was only registered does not count twice: the same
    member asking again (with nobody else voting in between) gets the same
    count and leaves the same state. *)
Theorem skip_vote_again (ctx : context) (st : bot_state) (vc : voice_client)
    (members : list member) :
  voice_clients st !! guild ctx = Some vc →
  is_playing vc = true →
  voice_channel (author ctx) = Some members →
  (∀ cur, current_song vc = Some cur → requester_id cur ≠ Some (a_id (author ctx))) →
  og_role (author ctx) = false →
  (size ({[a_id (author ctx)]} ∪ votes_of st (guild ctx))
   < votes_needed (non_bots members))%nat →
  skip ctx (fst (skip ctx st)) = skip ctx st
  ∧ a_id (author ctx) ∈ votes_of (fst (skip ctx st)) (guild ctx).
Proof.
  intros Hvc Hplay Hchan Hreq Hog Hlt.
  pose proof (skip_vote_path ctx st vc members Hvc Hplay Hchan Hreq Hog) as H1.
  cbv zeta in H1. apply Nat.leb_gt in Hlt. rewrite Hlt in H1.
  rewrite H1. cbn [fst].
  set (voters := {[a_id (author ctx)]} ∪ votes_of st (guild ctx)) in *.
  set (st1 := set_skip_votes <[guild ctx := voters]>
                (set_skip_votes (setdefault (guild ctx) ∅) st)).
  assert (votes_of st1 (guild ctx) = voters) as Hv1 by apply votes_of_insert.
  split; [|rewrite Hv1; apply elem_of_union_l, elem_of_singleton; reflexivity].
  pose proof (skip_vote_path ctx st1 vc members Hvc Hplay Hchan Hreq Hog) as H2.
  cbv zeta in H2. rewrite Hv1 in H2.
  assert ({[a_id (author ctx)]} ∪ voters = voters) as Hsame.
  { unfold voters. by rewrite (assoc_L (∪)), (idemp_L (∪)). }
  rewrite Hsame, Hlt in H2. rewrite H2. f_equal.
  subst st1. by rewrite vote_again.
Qed.

Lemma skip_vote_again_witness :
  skip (caller 2 4) (fst (skip (caller 2 4) (playing_a 4)))
    = skip (caller 2 4) (playing_a 4).
Proof.
  refine (proj1 (skip_vote_again (caller 2 4) (playing_a 4)
            (VoiceClient (Member 99 true :: humans 4) true false (Some track_a)
                         (Some 1%float))
            (Member 99 true :: humans 4) eq_refl eq_refl eq_refl _ eq_refl _)).
  - intros cur [= <-]. discriminate.
  - vm_compute. lia.
Defined.

(** X6: while something plays, a caller in a voice channel who has the OG
    role always skips: the player is stopped and the vote set emptied,
    whatever the votes and the members present. *)
Theorem skip_og_override (ctx : context) (st : bot_state) (vc : voice_client)
    (members : list member) :
  voice_clients st !! guild ctx = Some vc →
  is_playing vc = true →
  voice_channel (author ctx) = Some members →
  OG_ROLE_NAME ∈ roles (author ctx) →
  (∃ m, snd (skip ctx st) = [VoiceStop (guild ctx); Send m]
        ∧ (m = MsgRequesterOverride ∨ m = MsgOGOverride))
  ∧ fst (skip ctx st) = skip_resolved (guild ctx) vc st
  ∧ votes_of (fst (skip ctx st)) (guild ctx) = ∅
  ∧ voice_clients (fst (skip ctx st)) !! guild ctx = Some (vc_stop vc).
Proof.
  intros Hvc Hplay Hchan Hog.
  assert (og_role (author ctx) = true) as Hrole by by apply bool_decide_eq_true_2.
  assert (∃ m, skip ctx st = (skip_resolved (guild ctx) vc st,
                              [VoiceStop (guild ctx); Send m])
               ∧ (m = MsgRequesterOverride ∨ m = MsgOGOverride)) as (m & Heq & Hm).
  { unfold skip. rewrite Hvc, Hplay, Hchan, Hrole. cbn [negb].
    case_match; eexists; split; try reflexivity; auto. }
  rewrite Heq. cbn [fst snd]. split; [eauto|]. split; [done|]. split.
  - apply skip_resolved_votes.
  - apply skip_resolved_voice_client.
Qed.

Lemma skip_og_override_witness :
  snd (skip (Context 10 (Author 7 ["DJ"; "OG"] (Some (humans 9)))) (playing_a 9))
    = [VoiceStop 10; Send MsgOGOverride].
Proof.
  destruct (skip_og_override (Context 10 (Author 7 ["DJ"; "OG"]%string (Some (humans 9))))
              (playing_a 9)
              (VoiceClient (Member 99 true :: humans 9) true false (Some track_a)
                           (Some 1%float))
              (humans 9) eq_refl eq_refl eq_refl ltac:(vm_compute; set_solver))
    as [_ _].
  reflexivity.
Defined.

(** X7: [skip] never touches the queue, the playing flag, the watchdog
    handle, the stored volume or the locator cache, and when it only
    answers with one of its two refusals the whole state is as before. *)
Theorem skip_leaves_queue_alone (ctx : context) (st : bot_state) :
  guild_queues (fst (skip ctx st)) = guild_queues st
  ∧ guild_playing (fst (skip ctx st)) = guild_playing st
  ∧ disconnect_tasks (fst (skip ctx st)) = disconnect_tasks st
  ∧ guild_volumes (fst (skip ctx st)) = guild_volumes st
  ∧ audio_cache (fst (skip ctx st)) = audio_cache st
  ∧ (snd (skip ctx st) = [Send MsgNothingCurrentlyPlaying]
     ∨ snd (skip ctx st) = [Send MsgMustBeInVoiceToSkip] →
     fst (skip ctx st) = st)
  ∧ (snd (skip ctx st) = [Send MsgNothingCurrentlyPlaying] ↔
     ¬ ∃ vc, voice_clients st !! guild ctx = Some vc ∧ is_playing vc = true).
Proof.
  unfold skip.
  destruct (voice_clients st !! guild ctx) as [vc|] eqn:Hvc; cbn [negb fst snd].
  2: { split_and!; try done. split; [|done]. by intros _ (vc & ? & _). }
  destruct (is_playing vc) eqn:Hplay; cbn [negb fst snd].
  2: { split_and!; try done. split; [|done].
       intros _ (vc' & [= <-] & ?). congruence. }
  assert (∃ vc', Some vc = Some vc' ∧ is_playing vc' = true) as Hex by eauto.
  destruct (voice_channel (author ctx)) as [members|]; cbn [fst snd].
  2: { split_and!; try done; try (intros [|]; discriminate);
         try (split; [done|]; intros Hno; by destruct Hno). }
  repeat case_match; cbn [fst snd]; split_and!; try done;
    try (intros [|]; discriminate);
    try (split; [discriminate | intros Hno; by destruct Hno]).
Qed.

Lemma skip_leaves_queue_alone_witness :
  fst (skip (Context 10 (Author 2 [] None)) (playing_a 4)) = playing_a 4.
Proof.
  apply (proj1 (proj2 (proj2 (proj2 (proj2 (proj2
    (skip_leaves_queue_alone (Context 10 (Author 2 [] None)) (playing_a 4)))))))).
  right. reflexivity.
Defined.

(** ** Guilds do not see each other *)

Lemma lookup_setdefault_ne `{Countable K} {V} (k k' : K) (v : V) (d : gmap K V) :
  k ≠ k' → setdefault k v d !! k' = d !! k'.
Proof.
  intros Hne. unfold setdefault. destruct (d !! k); [done|].
  by rewrite lookup_insert_ne.
Qed.

Ltac other_guild :=
  unfold session; simpl;
  rewrite ?lookup_insert_ne, ?lookup_delete_ne, ?lookup_alter_ne,
    ?lookup_setdefault_ne by done;
  try reflexivity.

Lemma play_next_other_guild (play_raises : bool) (ctx : context) (st : bot_state)
    (g : Z) :
  guild ctx ≠ g → session (fst (play_next play_raises ctx st)) g = session st g.
Proof.
  intros Hne. unfold play_next. cbv zeta.
  repeat case_match; cbn [fst]; other_guild.
Qed.

Lemma preload_song_state (extract_info : string → extract_result) (query : string)
    (requester : Z) (st st' : bot_state) (s : song) :
  preload_song extract_info query requester st = inr (s, st') →
  st' = set_audio_cache <[webpage_url s := audio_url s]> st
  ∧ requester_id s = Some requester.
Proof.
  unfold preload_song. destruct (fetch_song extract_info query) as [e|s0]; [done|].
  by intros [= <- <-].
Qed.

Lemma play_other_guild (extract_info : string → extract_result) (c : option exn)
    (r : bool) (ctx : context) (query : string) (st : bot_state) (g : Z) :
  guild ctx ≠ g → session (fst (play extract_info c r ctx query st)) g = session st g.
Proof.
  intros Hne. unfold play. cbv zeta. fold (play_defaults (guild ctx) st).
  assert (session (play_defaults (guild ctx) st) g = session st g) as Hd
    by (unfold play_defaults; by other_guild).
  assert (∀ st1 out1, session st1 g = session st g →
            session (fst match preload_song extract_info query (a_id (author ctx)) st1 with
                         | inl e => (st1, out1 ++ [Send (MsgErrorLoading e)])
                         | inr (s, st2) =>
                           if default false
                                (guild_playing
                                   (set_guild_queues
                                      <[guild ctx := queue_of st2 (guild ctx) ++ [s]]> st2)
                                 !! guild ctx)
                           then (set_guild_queues
                                   <[guild ctx := queue_of st2 (guild ctx) ++ [s]]> st2,
                                 out1 ++ [Send (MsgAddedToQueue s)])
                           else let '(st3, out') :=
                                  play_next r ctx
                                    (set_guild_queues
                                       <[guild ctx := queue_of st2 (guild ctx) ++ [s]]> st2)
                                in (st3, (out1 ++ [Send (MsgAddedToQueue s)]) ++ out')
                         end) g = session st g) as Hrest.
  { intros st1 out1 H1.
    destruct (preload_song extract_info query (a_id (author ctx)) st1)
      as [e|[s st2]] eqn:Hpre; [done|].
    apply preload_song_state in Hpre as [-> _].
    set (st3 := set_guild_queues _ _).
    assert (session st3 g = session st g) as H3
      by (rewrite <- H1; subst st3; by other_guild).
    destruct (default false (guild_playing st3 !! guild ctx)); [done|].
    destruct (play_next r ctx st3) as [st4 out4] eqn:Hnext. cbn [fst].
    replace st4 with (fst (play_next r ctx st3)) by (by rewrite Hnext).
    by rewrite play_next_other_guild. }
  destruct (voice_clients (play_defaults (guild ctx) st) !! guild ctx) as [vc|].
  { by apply Hrest. }
  destruct (voice_channel (author ctx)) as [members|]; [|done].
  destruct c as [e|]; [done|].
  apply Hrest. rewrite <- Hd. by other_guild.
Qed.

(** X8: no handler reads or writes what the dictionaries hold for another
    guild: after [skip], [stop], [remove], [volume], [pause], [resume],
    [play_next], [play] or the watchdog's teardown for one guild, the queue,
    playing flag, votes, watchdog handle, volume and voice client of every
    other guild are as before. *)
Theorem handlers_keep_other_guilds (CREATOR_USER_ID : option Z)
    (extract_info : string → extract_result) (ctx : context) (st : bot_state) (g : Z) :
  guild ctx ≠ g →
  session (fst (skip ctx st)) g = session st g
  ∧ (∀ r, session (fst (stop CREATOR_USER_ID r ctx st)) g = session st g)
  ∧ (∀ n, session (fst (remove CREATOR_USER_ID ctx n st)) g = session st g)
  ∧ (∀ vol, session (fst (volume ctx vol st)) g = session st g)
  ∧ (∀ r, session (fst (pause CREATOR_USER_ID r ctx st)) g = session st g)
  ∧ (∀ r, session (fst (resume CREATOR_USER_ID r ctx st)) g = session st g)
  ∧ (∀ r, session (fst (play_next r ctx st)) g = session st g)
  ∧ (∀ c r query,
        session (fst (play extract_info c r ctx query st)) g = session st g)
  ∧ (∀ r, session (fst (teardown (guild ctx) r st)) g = session st g).
Proof.
  intros Hne. split_and!.
  - unfold skip. repeat case_match; cbn [fst]; by other_guild.
  - intros r. unfold stop. repeat case_match; simplify_eq; cbn [fst]; by other_guild.
  - intros n. unfold remove. repeat case_match; cbn [fst]; by other_guild.
  - intros vol. unfold volume. repeat case_match; cbn [fst]; by other_guild.
  - intros r. unfold pause. repeat case_match; cbn [fst]; by other_guild.
  - intros r. unfold resume. repeat case_match; cbn [fst]; by other_guild.
  - intros r. by apply play_next_other_guild.
  - intros c r query. by apply play_other_guild.
  - intros r. unfold teardown. destruct r; cbn [fst]; by other_guild.
Qed.

Lemma handlers_keep_other_guilds_witness :
  session (fst (stop None false (caller 5 4) (playing_a 4))) 11 = session (playing_a 4) 11.
Proof.
  apply (proj1 (proj2 (handlers_keep_other_guilds None no_result (caller 5 4)
                         (playing_a 4) 11 ltac:(simpl; lia)))).
Defined.

(** ** stop: what it leaves behind *)

(** X9: [stop] never touches the vote sets, the stored volumes or the
    locator cache, so votes and volume outlive a stop.  Without a voice
    client it answers "not connected" and leaves the queue and the playing
    flag alone too, but it still forgets and cancels a registered watchdog. *)
Theorem stop_keeps_votes_and_volume (CREATOR_USER_ID : option Z) (r : bool)
    (ctx : context) (st : bot_state) :
  skip_votes (fst (stop CREATOR_USER_ID r ctx st)) = skip_votes st
  ∧ guild_volumes (fst (stop CREATOR_USER_ID r ctx st)) = guild_volumes st
  ∧ audio_cache (fst (stop CREATOR_USER_ID r ctx st)) = audio_cache st
  ∧ (voice_clients st !! guild ctx = None →
       guild_queues (fst (stop None r ctx st)) = guild_queues st
       ∧ guild_playing (fst (stop None r ctx st)) = guild_playing st
       ∧ disconnect_tasks (fst (stop None r ctx st))
           = delete (guild ctx) (disconnect_tasks st)
       ∧ snd (stop None r ctx st)
           = Send MsgNotConnected
               :: match disconnect_tasks st !! guild ctx with
                  | Some t => [CancelTask t]
                  | None => []
                  end).
Proof.
  split_and!.
  1-3: unfold stop; repeat case_match; simplify_eq; reflexivity.
  intros Hvc. unfold stop. rewrite Hvc. cbv zeta beta iota.
  destruct (disconnect_tasks st !! guild ctx) as [t|] eqn:Ht; cbn [fst snd];
    split_and!; try done.
  simpl. symmetry. by apply delete_id.
Qed.

Lemma stop_keeps_votes_and_volume_witness :
  snd (stop None false (caller 5 4) (set_disconnect_tasks <[10 := 3%nat]> st0))
    = [Send MsgNotConnected; CancelTask 3].
Proof.
  exact (proj2 (proj2 (proj2 (proj2 (proj2 (proj2
    (stop_keeps_votes_and_volume None false (caller 5 4)
       (set_disconnect_tasks <[10 := 3%nat]> st0)))) eq_refl)))).
Defined.

(** ** play: the successful paths *)

Lemma play_connected (extract_info : string → extract_result) (c : option exn)
    (r : bool) (ctx : context) (query : string) (st : bot_state)
    (vc : voice_client) (s0 : song) :
  voice_clients st !! guild ctx = Some vc →
  fetch_song extract_info query = inr s0 →
  let s := with_requester s0 (a_id (author ctx)) in
  play extract_info c r ctx query st =
    if default false (guild_playing st !! guild ctx)
    then (enqueued (guild ctx) s st, [Send (MsgLoading query); Send (MsgAddedToQueue s)])
    else let '(st', out) := play_next r ctx (enqueued (guild ctx) s st) in
         (st', [Send (MsgLoading query); Send (MsgAddedToQueue s)] ++ out).
Proof.
  intros Hvc Hfetch s. unfold play. cbv zeta. fold (play_defaults (guild ctx) st).
  change (voice_clients (play_defaults (guild ctx) st)) with (voice_clients st).
  rewrite Hvc. unfold preload_song. rewrite Hfetch. fold (with_requester s0 (a_id (author ctx))).
  fold s. cbn [app].
  assert (queue_of (set_audio_cache <[webpage_url s := audio_url s]>
                      (play_defaults (guild ctx) st)) (guild ctx)
          = queue_of st (guild ctx)) as Hq by apply queue_of_setdefault.
  rewrite Hq. fold (enqueued (guild ctx) s st).
  assert (default false (guild_playing (enqueued (guild ctx) s st) !! guild ctx)
          = default false (guild_playing st !! guild ctx)) as ->.
  { simpl. unfold setdefault.
    destruct (guild_playing st !! guild ctx) eqn:E; [by rewrite E|].
    by rewrite lookup_insert_eq. }
  destruct (default false (guild_playing st !! guild ctx)); [reflexivity|].
  by destruct (play_next r ctx (enqueued (guild ctx) s st)).
Qed.

(** ** play_next: the head of the queue *)

Lemma play_next_success (ctx : context) (st : bot_state) (s : song)
    (rest : list song) (vc : voice_client) (audio_url : string) :
  queue_of st (guild ctx) = s :: rest →
  voice_clients st !! guild ctx = Some vc →
  is_playing vc = false →
  cached_locator st s = Some audio_url →
  let g := guild ctx in
  let gain := default 1%float (guild_volumes st !! g) in
  let st' := fst (play_next false ctx st) in
  queue_of st' g = rest
  ∧ guild_playing st' !! g = Some true
  ∧ voice_clients st' !! g = Some (vc_play gain (vc_set_current_song s vc))
  ∧ disconnect_tasks st' !! g = Some (next_task st)
  ∧ next_task st' = S (next_task st)
  ∧ skip_votes st' = skip_votes st
  ∧ guild_volumes st' = guild_volumes st
  ∧ audio_cache st' = audio_cache st
  ∧ snd (play_next false ctx st)
      = [Send (MsgNowPlaying s); VoicePlay g (Some audio_url) gain]
          ++ match disconnect_tasks st !! g with
             | Some t => [CancelTask t]
             | None => []
             end
          ++ [CreateAutoDisconnect g (next_task st)].
Proof.
  intros Hq Hvc Hplay Hloc g gain st'. subst st' gain g. unfold play_next. rewrite Hq.
  cbv zeta. change (voice_clients (set_guild_queues <[guild ctx:=rest]> st))
              with (voice_clients st).
  rewrite Hvc.
  change (cached_locator (set_voice_clients _ (set_guild_playing _ (set_guild_queues _ st))) s)
    with (cached_locator st s).
  rewrite Hloc.
  change (is_playing (vc_set_current_song s vc)) with (is_playing vc).
  rewrite Hplay. cbn [orb fst snd]. unfold queue_of. simpl.
  rewrite !lookup_insert_eq. split_and!; reflexivity.
Qed.

(** X10: [play_next] takes the head off a non-empty queue whatever happens
    next.  Without a voice client that song is dropped: it becomes nobody's
    current song, nothing is sent or played, and the guild is marked not
    playing.  On an empty queue the guild is only marked not playing. *)
Theorem play_next_pops_head (play_raises : bool) (ctx : context) (st : bot_state) :
  (∀ s rest, queue_of st (guild ctx) = s :: rest →
     queue_of (fst (play_next play_raises ctx st)) (guild ctx) = rest)
  ∧ (∀ s rest, queue_of st (guild ctx) = s :: rest →
     voice_clients st !! guild ctx = None →
     play_next play_raises ctx st
       = (set_guild_playing <[guild ctx := false]>
            (set_guild_queues <[guild ctx := rest]> st), []))
  ∧ (queue_of st (guild ctx) = [] →
     play_next play_raises ctx st = (set_guild_playing <[guild ctx := false]> st, [])).
Proof.
  split_and!.
  - intros s rest Hq. unfold play_next. rewrite Hq. cbv zeta.
    change (voice_clients (set_guild_queues <[guild ctx:=rest]> st))
      with (voice_clients st).
    destruct (voice_clients st !! guild ctx) as [vc|]; repeat case_match; cbn [fst];
      unfold queue_of; simpl; by rewrite lookup_insert_eq.
  - intros s rest Hq Hvc. unfold play_next. rewrite Hq. cbv zeta.
    change (voice_clients (set_guild_queues <[guild ctx:=rest]> st))
      with (voice_clients st).
    by rewrite Hvc.
  - intros Hq. unfold play_next. by rewrite Hq.
Qed.

Lemma play_next_pops_head_witness :
  queue_of (fst (play_next true (caller 1 4) (playing_a 4))) 10 = []
  ∧ play_next false (caller 1 4) (set_guild_queues <[10 := [track_a; track_b]]> st0)
    = (set_guild_playing <[10 := false]> (set_guild_queues <[10 := [track_b]]>
         (set_guild_queues <[10 := [track_a; track_b]]> st0)), []).
Proof.
  split.
  - apply (proj1 (play_next_pops_head true (caller 1 4) (playing_a 4)) track_b).
    reflexivity.
  - apply (proj1 (proj2 (play_next_pops_head false (caller 1 4)
                           (set_guild_queues <[10 := [track_a; track_b]]> st0)))
             track_a [track_b]); reflexivity.
Defined.

(** X11: when [voice_client.play] is reached (the song has a locator) and
    raises, because the client is already playing or for another reason, the
    song is gone from the queue and is the current song, the guild stays
    marked as playing, the next [play_next] is scheduled, and no watchdog is
    created or cancelled. *)
Theorem play_next_play_raises (play_raises : bool) (ctx : context) (st : bot_state)
    (s : song) (rest : list song) (vc : voice_client) (audio_url : string) :
  queue_of st (guild ctx) = s :: rest →
  voice_clients st !! guild ctx = Some vc →
  cached_locator st s = Some audio_url →
  play_raises = true ∨ is_playing vc = true →
  let g := guild ctx in
  let st' := fst (play_next play_raises ctx st) in
  snd (play_next play_raises ctx st) = [Send (MsgNowPlaying s); CreatePlayNext g]
  ∧ queue_of st' g = rest
  ∧ guild_playing st' !! g = Some true
  ∧ voice_clients st' !! g = Some (vc_set_current_song s vc)
  ∧ disconnect_tasks st' = disconnect_tasks st
  ∧ next_task st' = next_task st.
Proof.
  intros Hq Hvc Hloc Hraise g st'. subst st' g. unfold play_next. rewrite Hq.
  cbv zeta. change (voice_clients (set_guild_queues <[guild ctx:=rest]> st))
              with (voice_clients st).
  rewrite Hvc.
  change (cached_locator (set_voice_clients _ (set_guild_playing _ (set_guild_queues _ st))) s)
    with (cached_locator st s).
  rewrite Hloc.
  change (is_playing (vc_set_current_song s vc)) with (is_playing vc).
  assert (play_raises || is_playing vc = true) as ->.
  { apply orb_true_iff. by destruct Hraise; [left|right]. }
  cbn [fst snd]. unfold queue_of. simpl.
  rewrite !lookup_insert_eq. split_and!; reflexivity.
Qed.

Lemma play_next_play_raises_witness :
  snd (play_next true (caller 1 4) (ended_a 4))
    = [Send (MsgNowPlaying track_b); CreatePlayNext 10]
  ∧ snd (play_next false (caller 1 4) (playing_a 4))
    = [Send (MsgNowPlaying track_b); CreatePlayNext 10].
Proof.
  split.
  - refine (proj1 (play_next_play_raises true (caller 1 4) (ended_a 4) track_b []
             (VoiceClient (Member 99 true :: humans 4) false false (Some track_a) None)
             "stream-b" eq_refl eq_refl eq_refl _)).
    left. reflexivity.
  - refine (proj1 (play_next_play_raises false (caller 1 4) (playing_a 4) track_b []
             (VoiceClient (Member 99 true :: humans 4) true false (Some track_a)
                          (Some 1%float))
             "stream-b" eq_refl eq_refl eq_refl _)).
    right. reflexivity.
Defined.

(** X12: a song that is started (it has a locator and the client is not
    already playing) gets a fresh watchdog: the handle registered for the
    guild before, if any, is cancelled, a new task is created and registered
    in its place, and the player runs the head of the queue at the stored
    volume of the guild (1.0 if none is stored). *)
Theorem play_next_rearms_watchdog (ctx : context) (st : bot_state) (s : song)
    (rest : list song) (vc : voice_client) (audio_url : string) :
  queue_of st (guild ctx) = s :: rest →
  voice_clients st !! guild ctx = Some vc →
  is_playing vc = false →
  cached_locator st s = Some audio_url →
  let g := guild ctx in
  let gain := default 1%float (guild_volumes st !! g) in
  let st' := fst (play_next false ctx st) in
  (∀ t, disconnect_tasks st !! g = Some t →
     snd (play_next false ctx st)
       = [Send (MsgNowPlaying s); VoicePlay g (Some audio_url) gain;
          CancelTask t; CreateAutoDisconnect g (next_task st)])
  ∧ (disconnect_tasks st !! g = None →
     snd (play_next false ctx st)
       = [Send (MsgNowPlaying s); VoicePlay g (Some audio_url) gain;
          CreateAutoDisconnect g (next_task st)])
  ∧ disconnect_tasks st' !! g = Some (next_task st)
  ∧ next_task st' = S (next_task st)
  ∧ queue_of st' g = rest
  ∧ guild_playing st' !! g = Some true
  ∧ (∃ vc', voice_clients st' !! g = Some vc'
            ∧ current_song vc' = Some s ∧ is_playing vc' = true
            ∧ source vc' = Some gain).
Proof.
  intros Hq Hvc Hplay Hloc g gain st'.
  destruct (play_next_success ctx st s rest vc audio_url Hq Hvc Hplay Hloc)
    as (H1 & H2 & H3 & H4 & H5 & _ & _ & _ & H9).
  fold g gain st' in H1, H2, H3, H4, H5, H9.
  split_and!; try done.
  - intros t Ht. by rewrite H9, Ht.
  - intros Ht. by rewrite H9, Ht.
  - eexists. split; [exact H3|]. done.
Qed.

Lemma play_next_rearms_watchdog_witness :
  snd (play_next false (caller 1 4) (set_disconnect_tasks <[10 := 6%nat]> (ended_a 4)))
    = [Send (MsgNowPlaying track_b); VoicePlay 10 (Some "stream-b"%string) 1%float;
       CancelTask 6; CreateAutoDisconnect 10 0].
Proof.
  exact (proj1 (play_next_rearms_watchdog (caller 1 4)
                  (set_disconnect_tasks <[10 := 6%nat]> (ended_a 4)) track_b []
                  (VoiceClient (Member 99 true :: humans 4) false false (Some track_a)
                               None)
                  "stream-b" eq_refl eq_refl eq_refl eq_refl) 6%nat eq_refl).
Defined.

Lemma play_next_without_locator_eq (play_raises : bool) (ctx : context)
    (st : bot_state) (s : song) (rest : list song) (vc : voice_client) :
  queue_of st (guild ctx) = s :: rest →
  voice_clients st !! guild ctx = Some vc →
  cached_locator st s = None →
  snd (play_next play_raises ctx st) = [Send (MsgNowPlaying s); Raise TypeError]
  ∧ queue_of (fst (play_next play_raises ctx st)) (guild ctx) = rest
  ∧ guild_playing (fst (play_next play_raises ctx st)) !! guild ctx = Some true
  ∧ voice_clients (fst (play_next play_raises ctx st)) !! guild ctx
      = Some (vc_set_current_song s vc)
  ∧ disconnect_tasks (fst (play_next play_raises ctx st)) = disconnect_tasks st
      ∧ next_task (fst (play_next play_raises ctx st)) = next_task st.
Proof.
  intros Hq Hvc Hloc. unfold play_next. rewrite Hq.
  cbv zeta. change (voice_clients (set_guild_queues <[guild ctx:=rest]> st))
              with (voice_clients st).
  rewrite Hvc.
  change (cached_locator (set_voice_clients _ (set_guild_playing _ (set_guild_queues _ st))) s)
    with (cached_locator st s).
  rewrite Hloc. cbn [fst snd]. unfold queue_of. simpl.
  rewrite !lookup_insert_eq. split_and!; reflexivity.
Qed.

(** X22: a head song without a locator is lost: it is taken off the queue
    and made the current song, then building the source raises [TypeError],
    which nothing catches.  Nothing is played, no next [play_next] is
    scheduled, no watchdog is created or cancelled, and the guild stays marked
    as playing. *)
Theorem play_next_without_locator (play_raises : bool) (ctx : context)
    (st : bot_state) (s : song) (rest : list song) (vc : voice_client) :
  queue_of st (guild ctx) = s :: rest →
  voice_clients st !! guild ctx = Some vc →
  cached_locator st s = None →
  let g := guild ctx in
  let st' := fst (play_next play_raises ctx st) in
  snd (play_next play_raises ctx st) = [Send (MsgNowPlaying s); Raise TypeError]
  ∧ queue_of st' g = rest
  ∧ guild_playing st' !! g = Some true
  ∧ voice_clients st' !! g = Some (vc_set_current_song s vc)
  ∧ disconnect_tasks st' = disconnect_tasks st
  ∧ next_task st' = next_task st.
Proof.
  intros Hq Hvc Hloc g st'. subst st' g.
  destruct (play_next_without_locator_eq play_raises ctx st s rest vc Hq Hvc Hloc)
    as (H1 & H2 & H3 & H4 & H5 & H6).
  split_and!; done.
Qed.

Lemma play_next_without_locator_witness :
  snd (play_next false (caller 1 4)
         (set_audio_cache <[Some "https://b"%string := None]> (ended_a 4)))
    = [Send (MsgNowPlaying track_b); Raise TypeError].
Proof.
  exact (proj1 (play_next_without_locator false (caller 1 4)
                  (set_audio_cache <[Some "https://b"%string := None]> (ended_a 4))
                  track_b []
                  (VoiceClient (Member 99 true :: humans 4) false false (Some track_a)
                               None)
                  eq_refl eq_refl eq_refl)).
Defined.

(** ** play: enqueueing and starting *)

(** X13: while the guild is marked playing, a resolved [play] only
    enqueues: the song goes to the tail of the queue with the caller as its
    requester, nothing is started or stopped, and its fresh locator is in
    the cache for every song with the same [webpage_url]. *)
Theorem play_enqueues_at_tail (extract_info : string → extract_result)
    (c : option exn) (r : bool) (ctx : context) (query : string) (st : bot_state)
    (vc : voice_client) (s0 : song) :
  voice_clients st !! guild ctx = Some vc →
  guild_playing st !! guild ctx = Some true →
  fetch_song extract_info query = inr s0 →
  let g := guild ctx in
  let s := with_requester s0 (a_id (author ctx)) in
  let st' := fst (play extract_info c r ctx query st) in
  queue_of st' g = queue_of st g ++ [s]
  ∧ requester_id s = Some (a_id (author ctx))
  ∧ snd (play extract_info c r ctx query st)
      = [Send (MsgLoading query); Send (MsgAddedToQueue s)]
  ∧ voice_clients st' = voice_clients st
  ∧ guild_playing st' !! g = Some true
  ∧ disconnect_tasks st' = disconnect_tasks st
  ∧ (∀ s2, webpage_url s2 = webpage_url s → cached_locator st' s2 = audio_url s0).
Proof.
  intros Hvc Hplaying Hfetch g s st'. subst st' g.
  rewrite (play_connected extract_info c r ctx query st vc s0 Hvc Hfetch).
  cbv zeta. fold s. rewrite Hplaying. cbn [default fst snd].
  split_and!; try done.
  - unfold enqueued, queue_of. simpl. by rewrite lookup_insert_eq.
  - simpl. unfold setdefault. by rewrite Hplaying.
  - intros s2 Hurl. unfold cached_locator, enqueued. simpl.
    by rewrite Hurl, lookup_insert_eq.
Qed.

Lemma play_enqueues_at_tail_witness :
  queue_of (fst (play resolve_b None false (caller 3 4) "b" (playing_a 4))) 10
    = [track_b;
       Song (Some "B"%string) (Some "https://b"%string) (Some "stream-b3"%string)
            (Some 180) None (Some "Unknown"%string) (Some 3)]
  ∧ cached_locator (fst (play resolve_b None false (caller 3 4) "b" (playing_a 4)))
                   track_b
    = Some "stream-b3"%string.
Proof.
  destruct (play_enqueues_at_tail resolve_b None false (caller 3 4) "b" (playing_a 4)
              (VoiceClient (Member 99 true :: humans 4) true false (Some track_a)
                           (Some 1%float))
              (song_of_info (Info (Some "B"%string) (Some "https://b"%string)
                                  (Some "stream-b3"%string) (Some 180) None None))
              eq_refl eq_refl eq_refl) as (H1 & _ & _ & _ & _ & _ & H7).
  split; [exact H1 | exact (H7 track_b eq_refl)].
Defined.

(** X14: when the guild is not marked playing and its client is not
    playing, a resolved [play] enqueues and starts at once the head of the
    queue so extended, provided that song has a locator; on an empty queue
    the head is the new song itself and the locator its fresh [audio_url].
    The queue is then one shorter again and a watchdog is registered. *)
Theorem play_starts_when_idle (extract_info : string → extract_result)
    (c : option exn) (ctx : context) (query : string) (st : bot_state)
    (vc : voice_client) (s0 hd : song) (rest : list song) (url : string) :
  voice_clients st !! guild ctx = Some vc →
  is_playing vc = false →
  default false (guild_playing st !! guild ctx) = false →
  fetch_song extract_info query = inr s0 →
  let g := guild ctx in
  let s := with_requester s0 (a_id (author ctx)) in
  queue_of st g ++ [s] = hd :: rest →
  cached_locator (enqueued g s st) hd = Some url →
  let gain := default 1%float (guild_volumes st !! g) in
  let st' := fst (play extract_info c false ctx query st) in
  queue_of st' g = rest
  ∧ guild_playing st' !! g = Some true
  ∧ voice_clients st' !! g = Some (vc_play gain (vc_set_current_song hd vc))
  ∧ disconnect_tasks st' !! g = Some (next_task st)
  ∧ (∃ post,
        snd (play extract_info c false ctx query st)
          = [Send (MsgLoading query); Send (MsgAddedToQueue s);
             Send (MsgNowPlaying hd); VoicePlay g (Some url) gain] ++ post)
  ∧ (queue_of st g = [] → hd = s ∧ audio_url s0 = Some url).
Proof.
  intros Hvc Hplay Hidle Hfetch g s Hq Hloc gain st'. subst st' g.
  rewrite (play_connected extract_info c false ctx query st vc s0 Hvc Hfetch).
  cbv zeta. fold s. rewrite Hidle. set (g := guild ctx) in *.
  assert (queue_of (enqueued g s st) g = hd :: rest) as Hq1.
  { unfold enqueued, queue_of at 1. simpl. by rewrite lookup_insert_eq. }
  assert (voice_clients (enqueued g s st) !! g = Some vc) as Hvc1 by exact Hvc.
  assert (default 1%float (guild_volumes (enqueued g s st) !! g) = gain) as Hgain.
  { subst gain. simpl. unfold setdefault.
    destruct (guild_volumes st !! g) eqn:E; [by rewrite E|].
    by rewrite lookup_insert_eq. }
  destruct (play_next_success ctx (enqueued g s st) hd rest vc url Hq1 Hvc1 Hplay Hloc)
    as (H1 & H2 & H3 & H4 & _ & _ & _ & _ & H9).
  cbv zeta in H3, H9. fold g in H1, H2, H3, H4, H9. rewrite Hgain in H3, H9.
  destruct (play_next false ctx (enqueued g s st)) as [st1 out1].
  cbn [fst snd] in *. split_and!; try done.
  - eexists. by rewrite H9.
  - intros Hempty. rewrite Hempty in Hq. injection Hq as <- <-.
    split; [done|]. rewrite <- Hloc. unfold cached_locator, enqueued. simpl.
    by rewrite lookup_insert_eq.
Qed.

Lemma play_starts_when_idle_witness :
  ∃ post,
    snd (play resolve_b None false (caller 3 4) "b" connected_idle)
    = [Send (MsgLoading "b"); Send (MsgAddedToQueue resolved_b);
       Send (MsgNowPlaying resolved_b);
       VoicePlay 10 (Some "stream-b3"%string) 1%float] ++ post.
Proof.
  assert (voice_clients connected_idle !! guild (caller 3 4)
          = Some (VoiceClient (humans 4) false false None None)) as Hvc by reflexivity.
  assert (default false (guild_playing connected_idle !! guild (caller 3 4)) = false)
    as Hidle by reflexivity.
  assert (fetch_song resolve_b "b"
          = inr (song_of_info (Info (Some "B"%string) (Some "https://b"%string)
                                    (Some "stream-b3"%string) (Some 180) None None)))
    as Hfetch by reflexivity.
  destruct (play_starts_when_idle resolve_b None (caller 3 4) "b" connected_idle
              _ _ resolved_b [] "stream-b3" Hvc eq_refl Hidle Hfetch eq_refl eq_refl)
    as (_ & _ & _ & _ & Hout & _).
  exact Hout.
Defined.

(** X23: when the resolver returns a song without [url] and the guild is
    not marked playing with an empty queue, [play] enqueues the song and
    loses it at once: it is taken off the queue, building the source raises
    [TypeError], nothing is played, no watchdog is registered, and the guild
    is left marked as playing. *)
Theorem play_without_locator (extract_info : string → extract_result)
    (c : option exn) (r : bool) (ctx : context) (query : string) (st : bot_state)
    (vc : voice_client) (s0 : song) :
  voice_clients st !! guild ctx = Some vc →
  default false (guild_playing st !! guild ctx) = false →
  queue_of st (guild ctx) = [] →
  fetch_song extract_info query = inr s0 →
  audio_url s0 = None →
  let g := guild ctx in
  let s := with_requester s0 (a_id (author ctx)) in
  let st' := fst (play extract_info c r ctx query st) in
  snd (play extract_info c r ctx query st)
    = [Send (MsgLoading query); Send (MsgAddedToQueue s);
       Send (MsgNowPlaying s); Raise TypeError]
  ∧ queue_of st' g = []
  ∧ guild_playing st' !! g = Some true
  ∧ voice_clients st' !! g = Some (vc_set_current_song s vc)
  ∧ disconnect_tasks st' = disconnect_tasks st.
Proof.
  intros Hvc Hidle Hempty Hfetch Hnone g s st'. subst st' g.
  rewrite (play_connected extract_info c r ctx query st vc s0 Hvc Hfetch).
  cbv zeta. fold s. rewrite Hidle. set (g := guild ctx) in *.
  assert (queue_of (enqueued g s st) g = s :: []) as Hq1.
  { unfold enqueued, queue_of at 1. simpl. by rewrite lookup_insert_eq, Hempty. }
  assert (voice_clients (enqueued g s st) !! g = Some vc) as Hvc1 by exact Hvc.
  assert (cached_locator (enqueued g s st) s = None) as Hloc.
  { unfold cached_locator, enqueued. simpl. by rewrite lookup_insert_eq. }
  destruct (play_next_without_locator_eq r ctx (enqueued g s st) s [] vc Hq1 Hvc1 Hloc)
    as (H1 & H2 & H3 & H4 & H5 & _).
  fold g in H1, H2, H3, H4, H5.
  destruct (play_next r ctx (enqueued g s st)) as [st1 out1].
  cbn [fst snd] in *. split_and!.
  - by rewrite H1.
  - exact H2.
  - exact H3.
  - exact H4.
  - exact H5.
Qed.

Lemma play_without_locator_witness :
  snd (play resolve_no_url None false (caller 3 4) "c" connected_idle)
    = [Send (MsgLoading "c");
       Send (MsgAddedToQueue
               (with_requester (song_of_info
                  (Info (Some "C"%string) (Some "https://c"%string) None None None None)) 3));
       Send (MsgNowPlaying
               (with_requester (song_of_info
                  (Info (Some "C"%string) (Some "https://c"%string) None None None None)) 3));
       Raise TypeError].
Proof.
  assert (voice_clients connected_idle !! guild (caller 3 4)
          = Some (VoiceClient (humans 4) false false None None)) as Hvc by reflexivity.
  exact (proj1 (play_without_locator resolve_no_url None false (caller 3 4) "c"
                  connected_idle _ _ Hvc eq_refl eq_refl eq_refl eq_refl)).
Defined.

(** X15: a caller outside every voice channel, or a failing connect, ends
    [play] before anything is resolved: one refusal is sent, no song is
    looked up or cached, the queue reads as before and the guild still has no
    voice client; only the three defaults of the guild are filled in. *)
Theorem play_cannot_connect (extract_info : string → extract_result)
    (c : option exn) (r : bool) (ctx : context) (query : string) (st : bot_state) :
  voice_clients st !! guild ctx = None →
  let g := guild ctx in
  (voice_channel (author ctx) = None →
     play extract_info c r ctx query st = (play_defaults g st, [Send MsgMustBeInVoiceToPlay]))
  ∧ (∀ e, is_Some (voice_channel (author ctx)) → c = Some e →
     play extract_info c r ctx query st = (play_defaults g st, [Send (MsgConnectFailed e)]))
  ∧ audio_cache (play_defaults g st) = audio_cache st
  ∧ voice_clients (play_defaults g st) = voice_clients st
  ∧ (∀ g', queue_of (play_defaults g st) g' = queue_of st g')
  ∧ guild_playing (play_defaults g st) !! g
      = Some (default false (guild_playing st !! g))
  ∧ guild_volumes (play_defaults g st) !! g
      = Some (default 1%float (guild_volumes st !! g)).
Proof.
  intros Hvc g. subst g. split_and!; try done.
  - intros Hchan. unfold play. cbv zeta. fold (play_defaults (guild ctx) st).
    change (voice_clients (play_defaults (guild ctx) st)) with (voice_clients st).
    by rewrite Hvc, Hchan.
  - intros e [ms Hchan] ->. unfold play. cbv zeta.
    fold (play_defaults (guild ctx) st).
    change (voice_clients (play_defaults (guild ctx) st)) with (voice_clients st).
    by rewrite Hvc, Hchan.
  - intros g'. apply queue_of_setdefault.
  - simpl. unfold setdefault.
    destruct (guild_playing st !! guild ctx) eqn:E;
      [by rewrite E | by rewrite lookup_insert_eq].
  - simpl. unfold setdefault.
    destruct (guild_volumes st !! guild ctx) eqn:E;
      [by rewrite E | by rewrite lookup_insert_eq].
Qed.

Lemma play_cannot_connect_witness :
  snd (play resolve_b None false (Context 10 (Author 3 [] None)) "b" st0)
    = [Send MsgMustBeInVoiceToPlay].
Proof.
  rewrite (proj1 (play_cannot_connect resolve_b None false
                    (Context 10 (Author 3 [] None)) "b" st0 eq_refl) eq_refl).
  reflexivity.
Defined.

(** ** The watchdog's counter *)

Lemma auto_disconnect_loop_sleeping (g : Z) (polls : list poll) :
  ∀ (k : nat) idle tr, (k < 36)%nat →
  auto_disconnect_loop g (check_interval * Z.of_nat k) polls = (Sleeping idle, tr) →
  idle = check_interval * Z.of_nat (trailing_idle g k polls)
  ∧ (trailing_idle g k polls < 36)%nat
  ∧ tr = [].
Proof.
  induction polls as [|p rest IH]; intros k idle tr Hk Hloop.
  - simpl in Hloop. injection Hloop as <- <-. done.
  - rewrite auto_disconnect_loop_cons in Hloop. unfold trailing_idle. simpl.
    destruct (p_busy g p).
    + apply (IH 0%nat idle tr); [lia|exact Hloop].
    + destruct (180 <=? check_interval * Z.of_nat k + check_interval) eqn:Hlim;
        [discriminate|].
      apply Z.leb_gt in Hlim. unfold check_interval in Hlim.
      apply (IH (S k) idle tr); [lia|].
      replace (check_interval * Z.of_nat (S k))
        with (check_interval * Z.of_nat k + check_interval)
        by (unfold check_interval; lia).
      exact Hloop.
Qed.

(** X16: as long as the watchdog task is alive it has done nothing, and its
    counter is 5 seconds times the number of idle polls since the last busy
    one (0 right after a busy poll), always below 180. *)
Theorem auto_disconnect_counter (g : Z) (vc0 : voice_client) (polls : list poll)
    (idle : Z) :
  fst (auto_disconnect g (Some vc0) polls) = Sleeping idle →
  idle = check_interval * Z.of_nat (trailing_idle g 0 polls)
  ∧ 0 ≤ idle < 180
  ∧ snd (auto_disconnect g (Some vc0) polls) = []
  ∧ (∀ pre p, polls = pre ++ [p] → p_busy g p = true → idle = 0).
Proof.
  cbn [auto_disconnect]. intros Hfst.
  destruct (auto_disconnect_loop g 0 polls) as [w tr] eqn:Hloop.
  cbn [fst snd] in *. subst w.
  destruct (auto_disconnect_loop_sleeping g polls 0 idle tr ltac:(lia) Hloop)
    as (Hidle & Hlt & Htr).
  split_and!; try done.
  - unfold check_interval in Hidle. lia.
  - unfold check_interval in Hidle. lia.
  - intros pre p -> Hp. rewrite Hidle. unfold trailing_idle.
    rewrite fold_left_app. simpl. by rewrite Hp.
Qed.

Lemma auto_disconnect_counter_witness :
  15 = check_interval * Z.of_nat (trailing_idle 10 0 [idle_poll; idle_poll; idle_poll]).
Proof.
  apply (proj1 (auto_disconnect_counter 10 (p_voice_client idle_poll)
                  [idle_poll; idle_poll; idle_poll] 15 eq_refl)).
Defined.

(** ** Volume *)

Lemma percent_to_gain_ok (vol : Z) :
  0 ≤ vol ≤ 200 → gain_ok (percent_to_gain vol) = true.
Proof.
  intros Hvol.
  assert (forallb (λ k, gain_ok (percent_to_gain (Z.of_nat k))) (seq 0 201) = true)
    as Hall by (vm_compute; reflexivity).
  rewrite forallb_forall in Hall.
  specialize (Hall (Z.to_nat vol)). rewrite Z2Nat.id in Hall by lia.
  apply Hall, in_seq. lia.
Qed.

Lemma play_next_volumes (r : bool) (ctx : context) (st : bot_state) :
  guild_volumes (fst (play_next r ctx st)) = guild_volumes st.
Proof. unfold play_next. repeat case_match; reflexivity. Qed.

Lemma play_volumes (extract_info : string → extract_result) (c : option exn)
    (r : bool) (ctx : context) (query : string) (st : bot_state) :
  guild_volumes (fst (play extract_info c r ctx query st))
    = setdefault (guild ctx) 1%float (guild_volumes st).
Proof.
  unfold play. cbv zeta. fold (play_defaults (guild ctx) st).
  set (D := play_defaults (guild ctx) st).
  assert (∀ st1 out1, guild_volumes st1 = guild_volumes D →
            guild_volumes
              (fst match preload_song extract_info query (a_id (author ctx)) st1 with
                   | inl e => (st1, out1 ++ [Send (MsgErrorLoading e)])
                   | inr (s, st2) =>
                     if default false
                          (guild_playing
                             (set_guild_queues
                                <[guild ctx := queue_of st2 (guild ctx) ++ [s]]> st2)
                           !! guild ctx)
                     then (set_guild_queues
                             <[guild ctx := queue_of st2 (guild ctx) ++ [s]]> st2,
                           out1 ++ [Send (MsgAddedToQueue s)])
                     else let '(st3, out') :=
                            play_next r ctx
                              (set_guild_queues
                                 <[guild ctx := queue_of st2 (guild ctx) ++ [s]]> st2)
                          in (st3, (out1 ++ [Send (MsgAddedToQueue s)]) ++ out')
                   end) = guild_volumes D) as Hrest.
  { intros st1 out1 H1.
    destruct (preload_song extract_info query (a_id (author ctx)) st1)
      as [e|[s st2]] eqn:Hpre; [done|].
    apply preload_song_state in Hpre as [-> _].
    set (st3 := set_guild_queues _ _).
    assert (guild_volumes st3 = guild_volumes D) as H3 by (by rewrite <- H1).
    destruct (default false (guild_playing st3 !! guild ctx)); [done|].
    destruct (play_next r ctx st3) as [st4 out4] eqn:Hnext. cbn [fst].
    replace st4 with (fst (play_next r ctx st3)) by (by rewrite Hnext).
    by rewrite play_next_volumes. }
  change (setdefault (guild ctx) 1%float (guild_volumes st)) with (guild_volumes D).
  destruct (voice_clients D !! guild ctx) as [vc|]; [by apply Hrest|].
  destruct (voice_channel (author ctx)) as [members|]; [|done].
  destruct c as [e|]; [done|]. by apply Hrest.
Qed.

(** X17: every stored volume stays within [0.0, 2.0]: if all stored
    volumes are in that range, they still are after [volume] with any
    argument and after [play], and the gain [play_next] hands to the player
    is in that range too. *)
Theorem stored_volumes_in_range (extract_info : string → extract_result)
    (ctx : context) (st : bot_state) :
  volumes_ok st →
  (∀ vol, volumes_ok (fst (volume ctx vol st)))
  ∧ (∀ c r query, volumes_ok (fst (play extract_info c r ctx query st)))
  ∧ (∀ r g locator gain,
       In (VoicePlay g locator gain) (snd (play_next r ctx st)) → gain_ok gain = true).
Proof.
  intros Hok. split_and!.
  - intros vol g v. unfold volume.
    destruct (voice_clients st !! guild ctx) as [vc|]; [|apply Hok].
    destruct (current_song vc); [|apply Hok].
    destruct ((vol <? 0) || (200 <? vol)) eqn:Hrange; [apply Hok|].
    apply orb_false_iff in Hrange as [H1 H2].
    cbn [fst]. simpl. destruct (decide (guild ctx = g)) as [<-|Hne].
    + rewrite lookup_insert_eq. intros [= <-]. apply percent_to_gain_ok. lia.
    + rewrite lookup_insert_ne by done. apply Hok.
  - intros c r query g v. rewrite play_volumes. unfold setdefault.
    destruct (guild_volumes st !! guild ctx) eqn:E; [apply Hok|].
    destruct (decide (guild ctx = g)) as [<-|Hne].
    + rewrite lookup_insert_eq. by intros [= <-].
    + rewrite lookup_insert_ne by done. apply Hok.
  - intros r g locator gain. unfold play_next.
    repeat case_match; cbn [snd app]; intros Hin;
      repeat (destruct Hin as [Hin|Hin]; [try discriminate|]); try done.
    all: injection Hin as <- <- <-.
    all: match goal with
         | |- gain_ok (default _ ?o) = true =>
           let Hv := fresh "Hv" in
           destruct o eqn:Hv; [exact (Hok _ _ Hv) | reflexivity]
         end.
Qed.

Lemma volumes_ok_one (g : Z) : volumes_ok (set_guild_volumes <[g := 1%float]> st0).
Proof.
  intros g' v. simpl. destruct (decide (g = g')) as [<-|Hne].
  - rewrite lookup_insert_eq. by intros [= <-].
  - rewrite lookup_insert_ne by done. by rewrite lookup_empty.
Qed.

Lemma stored_volumes_in_range_witness :
  volumes_ok (fst (volume (caller 3 4) 150 (set_guild_volumes <[10 := 1%float]> st0))).
Proof.
  apply (proj1 (stored_volumes_in_range no_result (caller 3 4)
                  (set_guild_volumes <[10 := 1%float]> st0) (volumes_ok_one 10))).
Defined.

(** X18: an accepted volume is the gain of the next song started in the
    guild: after [volume], a [play_next] that starts the head of the queue
    (the client is not playing, the song has a locator) plays it at that
    gain. *)
Theorem volume_applies_to_next_song (ctx ctx' : context) (vol : Z) (st : bot_state)
    (vc : voice_client) (cur s : song) (rest : list song) (url : string) :
  0 ≤ vol ≤ 200 →
  voice_clients st !! guild ctx = Some vc →
  current_song vc = Some cur →
  is_playing vc = false →
  queue_of st (guild ctx) = s :: rest →
  cached_locator st s = Some url →
  guild ctx' = guild ctx →
  guild_volumes (fst (volume ctx vol st)) !! guild ctx = Some (percent_to_gain vol)
  ∧ ∃ post,
      snd (play_next false ctx' (fst (volume ctx vol st)))
        = Send (MsgNowPlaying s)
            :: VoicePlay (guild ctx) (Some url) (percent_to_gain vol) :: post.
Proof.
  intros Hvol Hvc Hcur Hplay Hq Hloc Hg.
  assert (fst (volume ctx vol st)
          = set_voice_clients
              <[guild ctx := vc_set_source_volume (percent_to_gain vol) vc]>
              (set_guild_volumes <[guild ctx := percent_to_gain vol]> st)) as ->.
  { unfold volume. rewrite Hvc, Hcur.
    assert ((vol <? 0) || (200 <? vol) = false) as ->; [|done].
    apply orb_false_iff. split; lia. }
  split; [simpl; by rewrite lookup_insert_eq|].
  set (st1 := set_voice_clients _ _).
  assert (queue_of st1 (guild ctx') = s :: rest) as Hq1 by (by rewrite Hg).
  assert (voice_clients st1 !! guild ctx'
          = Some (vc_set_source_volume (percent_to_gain vol) vc)) as Hvc1.
  { rewrite Hg. subst st1. simpl. by rewrite lookup_insert_eq. }
  destruct (play_next_success ctx' st1 s rest _ url Hq1 Hvc1 Hplay Hloc)
    as (_ & _ & _ & _ & _ & _ & _ & _ & H9).
  cbv zeta in H9. rewrite H9, Hg. subst st1. simpl. rewrite lookup_insert_eq.
  cbn [default app]. eauto.
Qed.

Lemma volume_applies_to_next_song_witness :
  ∃ post,
    snd (play_next false (caller 1 4) (fst (volume (caller 3 4) 50 (ended_a 4))))
      = Send (MsgNowPlaying track_b)
          :: VoicePlay 10 (Some "stream-b"%string) 0.5%float :: post.
Proof.
  apply (proj2 (volume_applies_to_next_song (caller 3 4) (caller 1 4) 50 (ended_a 4)
           (VoiceClient (Member 99 true :: humans 4) false false (Some track_a) None)
           track_a track_b [] "stream-b" ltac:(lia) eq_refl eq_refl eq_refl eq_refl
           eq_refl eq_refl)).
Defined.

(** ** remove and the queue display *)

Lemma deque_remove_sublist (x : song) (l l' : list song) :
  deque_remove x l = Some l' → l' `sublist_of` l ∧ length l = S (length l').
Proof.
  revert l'. induction l as [|y rest IH]; intros l' H; [done|].
  simpl in H. destruct (decide (y = x)) as [->|Hne].
  - injection H as ->. split; [by apply sublist_cons | done].
  - destruct (deque_remove x rest) as [r|]; [|done].
    injection H as <-. destruct (IH r eq_refl) as [Hsub Hlen].
    split; [by apply sublist_skip | simpl; by rewrite Hlen].
Qed.

(** X19: [remove] either answers "removed" and leaves the queue exactly
    one song shorter, the remaining songs in their old order, or it changes
    nothing at all; the voice client and its current song are never
    touched. *)
Theorem remove_keeps_order (CREATOR_USER_ID : option Z) (ctx : context) (n : Z)
    (st : bot_state) :
  let q := queue_of st (guild ctx) in
  let q' := queue_of (fst (remove CREATOR_USER_ID ctx n st)) (guild ctx) in
  q' `sublist_of` q
  ∧ voice_clients (fst (remove CREATOR_USER_ID ctx n st)) = voice_clients st
  ∧ ((∃ t, snd (remove CREATOR_USER_ID ctx n st) = [Send (MsgRemoved t)])
       ∧ length q = S (length q')
     ∨ (∀ t, snd (remove CREATOR_USER_ID ctx n st) ≠ [Send (MsgRemoved t)])
       ∧ fst (remove CREATOR_USER_ID ctx n st) = st).
Proof.
  intros q q'. subst q q'. unfold remove. cbv zeta.
  repeat case_match; cbn [fst snd];
    try (split_and!; [done | done | right; split; [intros t; discriminate | done]]).
  match goal with
  | H : deque_remove _ _ = Some _ |- _ => apply deque_remove_sublist in H as [Hsub Hlen]
  end.
  assert (∀ l, queue_of (set_guild_queues <[guild ctx := l]> st) (guild ctx) = l) as Hq.
  { intros l0. unfold queue_of. simpl. by rewrite lookup_insert_eq. }
  rewrite Hq. split_and!; [done | done |]. left. split; [eauto | done].
Qed.

Lemma remove_selects_displayed (CREATOR_USER_ID : option Z) (ctx : context)
    (st : bot_state) (i : nat) (s : song) :
  queue_of st (guild ctx) !! i = Some s →
  requester_id s = Some (a_id (author ctx)) →
  snd (remove CREATOR_USER_ID ctx (Z.of_nat i + 2) st) = [Send (MsgRemoved (title s))].
Proof.
  intros Hi Hreq. unfold remove. cbv zeta.
  pose proof (lookup_lt_Some _ _ _ Hi) as Hlen.
  destruct (queue_of st (guild ctx)) as [|s1 q1] eqn:Hq; [done|].
  cbn [nonempty negb].
  assert ((Z.of_nat i + 2 <? 2) || (Z.of_nat (length (s1 :: q1)) + 1 <? Z.of_nat i + 2)
          = false) as ->.
  { apply orb_false_iff. split; lia. }
  replace (Z.to_nat (Z.of_nat i + 2 - 2)) with i by lia.
  rewrite Hi, Hreq, bool_decide_eq_true_2 by done. cbn [orb negb].
  destruct (deque_remove_elem_of s (s1 :: q1)) as [q' ->]; [|done].
  by eapply list_elem_of_lookup_2.
Qed.

(** X20: the queue display and [remove] number the songs alike: the song
    at place [i] of the queue is shown in the field after the now-playing one
    (if any), labelled "Next" for [i = 0] and "<i+2>th" otherwise, and
    [remove] with the number [i + 2] by its requester removes a song of that
    title.  The display has one field per queued song plus one for a current
    song, and "queue is empty" is answered only without both. *)
Theorem queue_numbers_match_remove (CREATOR_USER_ID : option Z)
    (get_member : Z → option string) (ctx : context) (st : bot_state) :
  let q := queue_of st (guild ctx) in
  let current := voice_clients st !! guild ctx ≫= current_song in
  let offset := match current with Some _ => 1%nat | None => 0%nat end in
  (queue get_member ctx st = ReplyText MsgQueueEmpty ↔ q = [] ∧ current = None)
  ∧ (∀ i s, q !! i = Some s →
       ∃ fields,
         queue get_member ctx st = ReplyEmbed fields
         ∧ length fields = (offset + length q)%nat
         ∧ fields !! (offset + i)%nat
             = Some (song_field get_member (queue_label i) s)
         ∧ queue_label i
             = (if decide (i = 0%nat) then "Next"
                else pretty (Z.of_nat i + 2) +:+ "th")%string
         ∧ (requester_id s = Some (a_id (author ctx)) →
              snd (remove CREATOR_USER_ID ctx (Z.of_nat i + 2) st)
                = [Send (MsgRemoved (title s))])).
Proof.
  intros q current offset. unfold queue. cbv zeta. fold q. fold current.
  split.
  - destruct q as [|s1 q1], current as [cur|]; simpl; split;
      try done; try (by intros [? ?]).
  - intros i s Hi.
    assert (nonempty q = true) as Hne by (destruct q; [done|reflexivity]).
    rewrite Hne. cbn [negb andb]. eexists. split; [reflexivity|].
    split_and!.
    + rewrite length_app, length_imap. subst offset. by destruct current.
    + subst offset. destruct current as [cur|]; simpl;
        by rewrite list_lookup_imap, Hi.
    + by destruct i.
    + intros Hreq. by apply remove_selects_displayed.
Qed.

Lemma queue_numbers_match_remove_witness :
  ∃ fields,
    queue (λ _, None) (caller 2 4) (playing_a 4) = ReplyEmbed fields
    ∧ fields !! 1%nat
        = Some (EmbedField "Next" (Some "B"%string) "Unknown" "03:00")
    ∧ snd (remove None (caller 2 4) 2 (playing_a 4)) = [Send (MsgRemoved (Some "B"%string))].
Proof.
  destruct (proj2 (queue_numbers_match_remove None (λ _, None) (caller 2 4) (playing_a 4))
              0%nat track_b eq_refl) as (fields & H1 & _ & H3 & _ & H5).
  exists fields. split; [exact H1|]. split; [exact H3 | exact (H5 eq_refl)].
Defined.

(** ** fetch_song: what the song is made of *)

Lemma last_snoc_default {A} (l : list A) (x d : A) : List.last (l ++ [x]) d = x.
Proof.
  induction l as [|y l IH]; [done|].
  simpl. destruct (l ++ [x]) eqn:E; [by destruct l | exact IH].
Qed.

(** X21: of a result list only the first entry is used, and a resolved
    song has no requester yet.  Its thumbnail is the url of the last
    thumbnail listed and [None] when none is listed; its channel is
    "Unknown" only when the uploader key is missing, and whatever the key
    holds otherwise. *)
Theorem fetch_song_fields (extract_info : string → extract_result) (query : string) :
  (∀ i rest, extract_info query = ExtractEntries (i :: rest) →
     fetch_song extract_info query = inr (song_of_info i))
  ∧ (∀ s, fetch_song extract_info query = inr s →
     requester_id s = None
     ∧ (∃ i, s = song_of_info i
             ∧ (extract_info query = ExtractInfo i
                ∨ ∃ rest, extract_info query = ExtractEntries (i :: rest))))
  ∧ (∀ i ts t, i_thumbnails i = Some (ts ++ [t]) → thumbnail (song_of_info i) = t)
  ∧ (∀ i, i_thumbnails i = None ∨ i_thumbnails i = Some [] →
     thumbnail (song_of_info i) = None)
  ∧ (∀ i, i_uploader i = None → channel (song_of_info i) = Some "Unknown"%string)
  ∧ (∀ i u, i_uploader i = Some u → channel (song_of_info i) = u).
Proof.
  split_and!.
  - intros i rest H. unfold fetch_song. by rewrite H.
  - intros s. unfold fetch_song.
    destruct (extract_info query) as [e| |[|i rest]|i]; try done;
      intros [= <-]; (split; [done|]); exists i; split; eauto.
  - intros i ts t H. unfold song_of_info. simpl. rewrite H.
    destruct (ts ++ [t]) as [|t0 ts0] eqn:E; [by destruct ts|].
    rewrite <- (last_snoc_default ts t None), E. reflexivity.
  - intros i [H|H]; unfold song_of_info; simpl; by rewrite H.
  - intros i H. unfold song_of_info. simpl. by rewrite H.
  - intros i u H. unfold song_of_info. simpl. by rewrite H.
Qed.

Lemma fetch_song_fields_witness :
  thumbnail (song_of_info (Info None None None None
                             (Some [Some "small"%string; Some "large"%string]) None))
    = Some "large"%string.
Proof.
  apply (proj1 (proj2 (proj2 (fetch_song_fields no_result "q")))
           (Info None None None None (Some [Some "small"%string; Some "large"%string]) None)
           [Some "small"%string] (Some "large"%string)).
  reflexivity.
Defined.
